(** * table_to_json chaincode: compound keys and partial-key range queries

    A shallow embedding of [chaincode/table_to_json_chaincode.go] and the
    properties of its compound-key codec ([createCompoundKey]), its
    partial-key query ([partialCompoundKeyQuery]) and the handlers that
    use them ([init_marble_json], [get_marble_json],
    [get_blue_marbles_json], [set_owner]).

    Go strings are byte strings: they are modelled by [string], whose
    characters are the 256 values of [ascii]; [len] is [String.length]
    and string comparison is the byte-wise lexicographic [String.compare]. *)

From Stdlib Require Import Strings.String Strings.Ascii NArith Arith Lia.
From stdpp Require Import base tactics option list sorting strings gmap.

Local Open Scope string_scope.
Local Open Scope list_scope.

(** ** Go library functions used by the chaincode *)

Module strconv.

(** The decimal digit character of [d] (for [d < 10]): ['0' + d]. *)
Definition digit (d : nat) : ascii := ascii_of_nat (48 + d).

(** [formatBits]: the digits are produced from the least significant
    one, each written in front of those already in the buffer [acc],
    until the quotient is zero. [fuel] bounds the number of digits. *)
Fixpoint formatBits (fuel n : nat) (acc : string) : string :=
  match fuel with
  | O => acc
  | S fuel' =>
      let acc' := String (digit (n mod 10)) acc in
      if (n / 10 =? 0)%nat then acc' else formatBits fuel' (n / 10) acc'
  end.

(** [strconv.Itoa] on a non-negative [int] (a [len] never is negative):
    the shortest decimal representation, no sign, no padding. A number
    [n] has at most [n + 1] digits. *)
Definition Itoa (n : nat) : string := formatBits (S n) n "".

End strconv.

Module bytes.

(** [bytes.Buffer]: only [WriteString] and [String] are used; the zero
    value is the empty buffer. *)
Definition Buffer := string.
Definition empty : Buffer := "".
Definition WriteString (b : Buffer) (s : string) : Buffer := b +:+ s.
Definition String (b : Buffer) : string := b.

End bytes.

(** Go's [error] values, as the messages they carry; [None] is [nil]. *)
Definition error := string.

(** ** The compound-key codec *)

(** [createCompoundKey]: the object type followed, for each key in order,
    by [strconv.Itoa(len(key))] and the key. The error result is always
    [nil]. *)
Definition createCompoundKey (objectType : string) (keys : list string)
  : string * option error :=
  let keyBuffer := bytes.empty in
  let keyBuffer := bytes.WriteString keyBuffer objectType in
  let keyBuffer :=
    fold_left
      (fun keyBuffer key =>
         let keyBuffer :=
           bytes.WriteString keyBuffer (strconv.Itoa (String.length key)) in
         bytes.WriteString keyBuffer key)
      keys keyBuffer in
  (bytes.String keyBuffer, None).

(** The two bounds that [partialCompoundKeyQuery] passes to
    [RangeQueryState]: [keyString+"1"] and [keyString+":"]. *)
Definition queryRange (objectType : string) (keys : list string)
  : string * string :=
  let '(keyString, _) := createCompoundKey objectType keys in
  (keyString +:+ "1", keyString +:+ ":").

(** Membership of a key in the half-open range [[startKey, endKey)]. *)
Definition inRange (r : string * string) (k : string) : bool :=
  (r.1 <=? k)%string && (k <? r.2)%string.

(** ** The chaincode stub

    The shim ([shim.ChaincodeStubInterface] and its range-query iterator)
    is an external library, of which the chaincode has the interface only.
    Its calls are modelled from §6 of the specification, which gives their
    contract: [Get(key)], [Put(key, value)] and
    [RangeScan(startKeyInclusive, endKeyExclusive)], the last yielding the
    (key, value) pairs of the range in ascending byte order. The model
    adds what the handlers can observe besides: every call to the peer can
    fail (a script in the stub says which calls will), an iterator is an
    object of the stub addressed by a handle, so that a [Close] is seen
    through every copy of the handle, and the stub keeps the trace of
    the calls made on it. *)

Inductive Event :=
| EvGetState (key : string) (value : option string)
| EvPutState (key value : string)
| EvRangeQueryState (startKey endKey : string) (iter : option nat)
| EvHasNext (iter : nat)
| EvNext (iter : nat)
| EvClose (iter : nat).

(** A range-query iterator: the pairs not yet consumed, and whether
    [Close] has been called on it. *)
Record StateRangeQueryIterator := mkIter {
  pending : list (string * string);
  closed : bool
}.

Record Stub := mkStub {
  state : gmap string string;
  iterators : list StateRangeQueryIterator;
  failures : list bool;
  trace : list Event
}.

(** The next entry of the failure script ([false] when it is used up). *)
Definition nextFailure (stub : Stub) : bool * Stub :=
  match failures stub with
  | [] => (false, stub)
  | f :: fs => (f, mkStub (state stub) (iterators stub) fs (trace stub))
  end.

Definition record (ev : Event) (stub : Stub) : Stub :=
  mkStub (state stub) (iterators stub) (failures stub) (trace stub ++ [ev]).

Definition peerError : error := "peer error".

(** Modelled from the spec: [stub.GetState(key)], the [Get] of §6. It
    returns [(value, nil)], the value being [nil] for an absent key, or
    [(nil, err)]. *)
Definition GetState (stub : Stub) (key : string)
  : (option string * option error) * Stub :=
  let '(fails, stub) := nextFailure stub in
  if fails then ((None, Some peerError), record (EvGetState key None) stub)
  else
    let value := state stub !! key in
    ((value, None), record (EvGetState key value) stub).

(** Modelled from the spec: [stub.PutState(key, value)], the [Put] of
    §6; the value replaces the one that the key had. *)
Definition PutState (stub : Stub) (key value : string) : option error * Stub :=
  let '(fails, stub) := nextFailure stub in
  if fails then (Some peerError, record (EvPutState key value) stub)
  else
    (None,
     record (EvPutState key value)
       (mkStub (<[key := value]> (state stub)) (iterators stub)
          (failures stub) (trace stub))).

(** Ascending order of the keys of (key, value) pairs. *)
Definition key_le (p q : string * string) : Prop := (p.1 ≤ q.1)%string.

#[global] Instance key_le_dec : RelDecision key_le.
Proof. intros p q. unfold key_le. apply _. Defined.

(** Modelled from the spec: the [RangeScan] of §6, the pairs of the
    state whose key lies in [[startKey, endKey)], in ascending order of
    the keys. *)
Definition rangeScan (st : gmap string string) (startKey endKey : string)
  : list (string * string) :=
  merge_sort key_le
    (map_to_list
       (filter (fun kv : string * string => inRange (startKey, endKey) kv.1)
          st)).

(** Modelled from the spec: [stub.RangeQueryState(startKey, endKey)],
    which returns [(iter, nil)], written [inl iter], or [(nil, err)],
    written [inr err]. The new iterator holds the result of the
    [RangeScan]; it is allocated at the next free handle. *)
Definition RangeQueryState (stub : Stub) (startKey endKey : string)
  : (nat + error) * Stub :=
  let '(fails, stub) := nextFailure stub in
  if fails then
    (inr peerError, record (EvRangeQueryState startKey endKey None) stub)
  else
    let iter := length (iterators stub) in
    (inl iter,
     record (EvRangeQueryState startKey endKey (Some iter))
       (mkStub (state stub)
          (iterators stub ++ [mkIter (rangeScan (state stub) startKey endKey) false])
          (failures stub) (trace stub))).

(** Modelled from the spec: [iter.HasNext()], whether a pair is left. *)
Definition HasNext (stub : Stub) (iter : nat) : bool * Stub :=
  let more :=
    match iterators stub !! iter with
    | Some it => bool_decide (pending it ≠ [])
    | None => false
    end in
  (more, record (EvHasNext iter) stub).

(** Modelled from the spec: [iter.Next()], the next pair, or an error
    when there is none. *)
Definition Next (stub : Stub) (iter : nat)
  : (string * option string * option error) * Stub :=
  match iterators stub !! iter with
  | Some (mkIter ((k, v) :: rest) c) =>
      ((k, Some v, None),
       record (EvNext iter)
         (mkStub (state stub) (<[iter := mkIter rest c]> (iterators stub))
            (failures stub) (trace stub)))
  | _ => (("", None, Some "No such key"), record (EvNext iter) stub)
  end.

(** [iter.Close()], which tells the peer to release the iterator. Neither
    the chaincode nor the specification says what [HasNext] and [Next]
    give on an iterator after its [Close]; that they go on through the
    pairs already fetched is a choice of this model. The properties of
    the keys and of the ranges below do not rest on it. *)
Definition Close (stub : Stub) (iter : nat) : option error * Stub :=
  let '(fails, stub) := nextFailure stub in
  let stub :=
    record (EvClose iter)
      (mkStub (state stub)
         (alter (fun it => mkIter (pending it) true) iter (iterators stub))
         (failures stub) (trace stub)) in
  (if fails then Some peerError else None, stub).

(** Whether [Close] has been called on the iterator behind a handle. *)
Definition isClosed (stub : Stub) (iter : nat) : bool :=
  match iterators stub !! iter with
  | Some it => closed it
  | None => false
  end.

(** ** The chaincode *)

Record Marble := mkMarble {
  ObjectType : string;
  Name : string;
  Color : string;
  Size : Z;
  Owner : string
}.

(** The other library functions the handlers call. Their results are
    opaque to the properties below: [json.Marshal] and [json.Unmarshal]
    on a [Marble] (the second fills the given struct from the bytes, which
    may be [nil]), [strings.ToLower] and [strconv.Atoi] (whose error the
    handlers drop). *)
Class GoLib := {
  json_Marshal : Marble -> string;
  json_Unmarshal : option string -> Marble -> Marble;
  strings_ToLower : string -> string;
  strconv_Atoi : string -> Z
}.

(** What a handler call does: it returns its two results, or it panics. *)
Inductive Outcome :=
| Return (payload : option string) (err : option error)
| Panic.

(** The zero value [Marble{}]. *)
Definition zeroMarble : Marble := mkMarble "" "" "" 0 "".

Definition init_marble_json `{GoLib} (stub : Stub) (args : list string)
  : Outcome * Stub :=
  match args with
  | [arg0; arg1; arg2; arg3] =>
      let objectType := "Marble" in
      let name := arg0 in
      let color := strings_ToLower arg1 in
      let size := strconv_Atoi arg2 in
      let owner := strings_ToLower arg3 in
      let marble := mkMarble objectType name color size owner in
      let '(compoundKey, _) :=
        createCompoundKey objectType [Color marble; Name marble] in
      let marbleJSONBytes := json_Marshal marble in
      let '(_, stub) := PutState stub compoundKey marbleJSONBytes in
      (Return None None, stub)
  | _ => (Return None (Some "Incorrect number of arguments. Expecting 4"), stub)
  end.

Definition get_marble_json `{GoLib} (stub : Stub) (args : list string)
  : Outcome * Stub :=
  match args with
  | name :: color :: _ =>
      let objectType := "Marble" in
      let '(compoundKey, _) := createCompoundKey objectType [color; name] in
      let '((marbleJSONBytes, _), stub) := GetState stub compoundKey in
      let marble := json_Unmarshal marbleJSONBytes zeroMarble in
      (Return None None, stub)
  | _ => (Panic, stub)
  end.

Definition partialCompoundKeyQuery (stub : Stub) (objectType : string)
    (keys : list string) : (nat + error) * Stub :=
  let '(keyString, _) := createCompoundKey objectType keys in
  match RangeQueryState stub (keyString +:+ "1") (keyString +:+ ":") with
  | (inr err, stub) => (inr ("Error fetching rows: " +:+ err), stub)
  | (inl keysIter, stub) =>
      (* the deferred [keysIter.Close()] runs when the function returns *)
      let '(_, stub) := Close stub keysIter in
      (inl keysIter, stub)
  end.

(** The loop [for keysIter.HasNext() { ... keysIter.Next() ... }] of
    [get_blue_marbles_json], which appends a marble per pair; every turn
    consumes a pending pair, so [fuel] above their number is enough. *)
Fixpoint collectMarbles `{GoLib} (fuel : nat) (stub : Stub) (keysIter : nat)
    (marbles : list Marble) : list Marble * Stub :=
  match fuel with
  | O => (marbles, stub)
  | S fuel' =>
      let '(more, stub) := HasNext stub keysIter in
      if more then
        let '((_, marbleJSONBytes, _), stub) := Next stub keysIter in
        let marble := json_Unmarshal marbleJSONBytes zeroMarble in
        collectMarbles fuel' stub keysIter (marbles ++ [marble])
      else (marbles, stub)
  end.

Definition pendingCount (stub : Stub) (iter : nat) : nat :=
  match iterators stub !! iter with
  | Some it => length (pending it)
  | None => 0
  end.

Definition get_blue_marbles_json `{GoLib} (stub : Stub) (args : list string)
  : Outcome * Stub :=
  let objectType := "Marble" in
  let partialKeysForQuery := ["blue"] in
  match partialCompoundKeyQuery stub objectType partialKeysForQuery with
  | (inr _, stub) =>
      (* [keysIter] is nil: [defer keysIter.Close()] panics *)
      (Panic, stub)
  | (inl keysIter, stub) =>
      let '(marbles, stub) :=
        collectMarbles (S (pendingCount stub keysIter)) stub keysIter [] in
      (* the deferred [keysIter.Close()] *)
      let '(_, stub) := Close stub keysIter in
      (Return None None, stub)
  end.

Definition set_owner `{GoLib} (stub : Stub) (args : list string)
  : Outcome * Stub :=
  match args with
  | arg0 :: arg1 :: _ =>
      match GetState stub arg0 with
      | ((_, Some _), stub) => (Return None (Some "Failed to get thing"), stub)
      | ((marbleAsBytes, None), stub) =>
          let res := json_Unmarshal marbleAsBytes zeroMarble in
          let res :=
            mkMarble (ObjectType res) (Name res) (Color res) (Size res) arg1 in
          let jsonAsBytes := json_Marshal res in
          match PutState stub arg0 jsonAsBytes with
          | (Some err, stub) => (Return None (Some err), stub)
          | (None, stub) => (Return None None, stub)
          end
      end
  | _ => (Return None (Some "Incorrect number of arguments. Expecting 2"), stub)
  end.

(** ** The words of the specification

    The notions the properties are stated with, which the chaincode does
    not name. *)

(** The segments of a key tuple, as the encoder is described: for each
    field in order its length in decimal and its bytes, nothing between. *)
Fixpoint segments (keys : list string) : string :=
  match keys with
  | [] => ""
  | key :: keys' =>
      strconv.Itoa (String.length key) +:+ key +:+ segments keys'
  end.

(** [p] is a byte-prefix of [s]. *)
Definition isPrefix (p s : string) : Prop := exists r, s = p +:+ r.

(** The characters ['1'] to ['9']: those from which the range of a
    partial-key query starts, up to the last one before [':']. *)
Definition isDigit19 (c : ascii) : bool :=
  (49 <=? N_of_ascii c)%N && (N_of_ascii c <=? 57)%N.

(** The number of digits with which the length of a field is written. *)
Definition lengthDigits (key : string) : nat :=
  String.length (strconv.Itoa (String.length key)).

(** The lengths of all the fields of a tuple are written with [width]
    digits; with one digit when every field is shorter than 10 bytes. *)
Definition uniformFields (width : nat) (keys : list string) : Prop :=
  Forall (fun key => lengthDigits key = width) keys.

(** [put]: [PutState] under the compound key of the tuple, as
    [init_marble_json] does with the marble's JSON. *)
Definition put (stub : Stub) (objectType : string) (keys : list string)
    (payload : string) : option error * Stub :=
  let '(compoundKey, _) := createCompoundKey objectType keys in
  PutState stub compoundKey payload.

(** [getExact]: [GetState] under the compound key of the tuple, as
    [get_marble_json] does. *)
Definition getExact (stub : Stub) (objectType : string) (keys : list string)
  : (option string * option error) * Stub :=
  let '(compoundKey, _) := createCompoundKey objectType keys in
  GetState stub compoundKey.

(** The loop of [get_blue_marbles_json] again, keeping the pairs that
    [Next] returns instead of the marbles decoded from them. *)
Fixpoint drain (fuel : nat) (stub : Stub) (keysIter : nat)
    (records : list (string * option string))
  : list (string * option string) * Stub :=
  match fuel with
  | O => (records, stub)
  | S fuel' =>
      let '(more, stub) := HasNext stub keysIter in
      if more then
        let '((key, value, _), stub) := Next stub keysIter in
        drain fuel' stub keysIter (records ++ [(key, value)])
      else (records, stub)
  end.


(** The lexicographic order of field tuples, fields compared as byte
    strings; a proper prefix comes first. *)
Fixpoint tupleCompare (a b : list string) : comparison :=
  match a, b with
  | [], [] => Eq
  | [], _ :: _ => Lt
  | _ :: _, [] => Gt
  | x :: a', y :: b' =>
      match (x ?= y)%string with
      | Eq => tupleCompare a' b'
      | c => c
      end
  end.

(** The end key that §4.2 of the specification describes: the last byte
    incremented, a maximal last byte dropped and the increment carried
    on; [None] (no upper limit) when every byte is maximal. *)
Fixpoint prefixSuccessor (s : string) : option string :=
  match s with
  | "" => None
  | String c s' =>
      match prefixSuccessor s' with
      | Some t => Some (String c t)
      | None =>
          if (N_of_ascii c =? 255)%N then None
          else Some (String (ascii_of_N (N_of_ascii c + 1)) "")
      end
  end.

(** The key of the state that a call on the stub reads or writes. *)
Definition eventKey (ev : Event) : option string :=
  match ev with
  | EvGetState key _ | EvPutState key _ => Some key
  | _ => None
  end.

(** A use of an iterator by its holder: a [HasNext] or a [Next]. *)
Definition isUse (iter : nat) (ev : Event) : Prop :=
  ev = EvHasNext iter \/ ev = EvNext iter.

(** An instance of the library functions for the examples: a marble is
    written as its name, a colon and its owner, nothing is read back and
    no letter is changed. *)
Definition exampleLib : GoLib := {|
  json_Marshal marble := Name marble +:+ ":" +:+ Owner marble;
  json_Unmarshal _ marble := marble;
  strings_ToLower s := s;
  strconv_Atoi _ := 0%Z
|}.

(** Two tuples whose fields have the same lengths, position by position. *)
Definition sameLengths (a b : list string) : Prop :=
  Forall2 (fun x y => String.length x = String.length y) a b.

(** ** The entry points and the generic read *)

(** The double-quote character as a string, for the JSON error of
    [read]. *)
Definition quote : string := String (ascii_of_nat 34) "".

(** [read]: the value of the state under the one argument; a [GetState]
    that fails gives a JSON error that names the key. *)
Definition read (stub : Stub) (args : list string) : Outcome * Stub :=
  match args with
  | [name] =>
      match GetState stub name with
      | ((_, Some _), stub) =>
          let jsonResp :=
            "{" +:+ quote +:+ "Error" +:+ quote +:+ ":" +:+ quote
            +:+ "Failed to get state for " +:+ name +:+ quote +:+ "}" in
          (Return None (Some jsonResp), stub)
      | ((valAsbytes, None), stub) => (Return valAsbytes None, stub)
      end
  | _ =>
      (Return None
         (Some "Incorrect number of arguments. Expecting name of the var to query"),
       stub)
  end.

(** [Query]: the function name and the arguments are those that
    [stub.GetFunctionAndParameters()] returns, given here as parameters. *)
Definition Query (stub : Stub) (function : string) (args : list string)
  : Outcome * Stub :=
  if (function =? "read")%string then read stub args
  else (Return None (Some "Received unknown function query"), stub).

(** The handlers of the table storage path ([Init], [init_marble_table],
    [get_marble_table], [get_blue_marbles_table]) are written against the
    table calls of the shim ([CreateTable], [InsertRow], [GetRow],
    [GetRows]), of which the chaincode has no definition; [Invoke] takes
    them as they are, whatever they do. *)
Class TableHandlers := {
  Init : Stub -> Outcome * Stub;
  init_marble_table : Stub -> list string -> Outcome * Stub;
  get_marble_table : Stub -> list string -> Outcome * Stub;
  get_blue_marbles_table : Stub -> list string -> Outcome * Stub
}.

(** [Invoke]: the dispatch on the function name, in the order of the
    source. *)
Definition Invoke `{GoLib} `{TableHandlers} (stub : Stub) (function : string)
    (args : list string) : Outcome * Stub :=
  if (function =? "init")%string then Init stub
  else if (function =? "init_marble_table")%string then
    init_marble_table stub args
  else if (function =? "init_marble_json")%string then
    init_marble_json stub args
  else if (function =? "get_marble_table")%string then
    get_marble_table stub args
  else if (function =? "get_marble_json")%string then
    get_marble_json stub args
  else if (function =? "get_blue_marbles_table")%string then
    get_blue_marbles_table stub args
  else if (function =? "get_blue_marbles_json")%string then
    get_blue_marbles_json stub args
  else if (function =? "set_owner")%string then
    let '(res, stub) := set_owner stub args in
    (res, stub)
  else (Return None (Some "Received unknown function invocation"), stub).

(** The names that [Invoke] knows. *)
Definition invokeFunctions : list string :=
  ["init"; "init_marble_table"; "init_marble_json"; "get_marble_table";
   "get_marble_json"; "get_blue_marbles_table"; "get_blue_marbles_json";
   "set_owner"].

(** Instances for the examples: table handlers that do nothing, and
    library functions whose [strings.ToLower] lowers the letters ['A'] to
    ['Z'] and leaves the other bytes. *)
Definition exampleTables : TableHandlers := {|
  Init stub := (Return None None, stub);
  init_marble_table stub _ := (Return None None, stub);
  get_marble_table stub _ := (Return None None, stub);
  get_blue_marbles_table stub _ := (Return None None, stub)
|}.

Definition lowerAscii (c : ascii) : ascii :=
  let n := N_of_ascii c in
  if ((65 <=? n) && (n <=? 90))%N then ascii_of_N (n + 32) else c.

Fixpoint lowerString (s : string) : string :=
  match s with
  | "" => ""
  | String c s' => String (lowerAscii c) (lowerString s')
  end.

Definition asciiLib : GoLib := {|
  json_Marshal marble := Name marble +:+ ":" +:+ Owner marble;
  json_Unmarshal _ marble := marble;
  strings_ToLower := lowerString;
  strconv_Atoi _ := 0%Z
|}.

(** * Properties *)

(** ** Some keys and ranges *)

Example Itoa_0 : strconv.Itoa 0 = "0".
Proof. reflexivity. Qed.

Example Itoa_9 : strconv.Itoa 9 = "9".
Proof. reflexivity. Qed.

Example Itoa_10 : strconv.Itoa 10 = "10".
Proof. reflexivity. Qed.

Example Itoa_2048 : strconv.Itoa 2048 = "2048".
Proof. vm_compute. reflexivity. Qed.

Example key_blue_rose :
  createCompoundKey "Marble" ["blue"; "rose"] = ("Marble4blue4rose", None).
Proof. reflexivity. Qed.

Example key_empty_field :
  createCompoundKey "Marble" ["blue"; ""] = ("Marble4blue0", None).
Proof. reflexivity. Qed.

Example range_blue :
  queryRange "Marble" ["blue"] = ("Marble4blue1", "Marble4blue:").
Proof. reflexivity. Qed.

Example range_blue_rose :
  inRange (queryRange "Marble" ["blue"]) "Marble4blue4rose" = true.
Proof. reflexivity. Qed.

Example range_blue_empty_name :
  inRange (queryRange "Marble" ["blue"]) "Marble4blue0" = false.
Proof. reflexivity. Qed.

Example range_red_rose :
  inRange (queryRange "Marble" ["red"]) "Marble4blue4rose" = false.
Proof. reflexivity. Qed.

Example get_blue_marbles_json_blue :
  let stub0 := mkStub ∅ [] [] [] in
  let stub1 :=
    (@init_marble_json exampleLib stub0 ["rose"; "blue"; "35"; "bob"]).2 in
  let stub2 :=
    (@init_marble_json exampleLib stub1 ["ruby"; "red"; "7"; "eve"]).2 in
  (@get_blue_marbles_json exampleLib stub2 []).1 = Return None None
  /\ rangeScan (state stub2) "Marble4blue1" "Marble4blue:" =
     [("Marble4blue4rose", "rose:bob")]
  /\ rangeScan (state stub2) "Marble5green1" "Marble5green:" = [].
Proof. repeat split; vm_compute; reflexivity. Qed.

(** ** Byte strings: concatenation and the lexicographic order *)

Module Str.

#[local] Arguments String.append : simpl nomatch.

Lemma app_nil_r (s : string) : s +:+ "" = s.
Proof. induction s as [|a s IH]; simpl; [done | by rewrite IH]. Qed.

Lemma app_assoc (s t u : string) : (s +:+ t) +:+ u = s +:+ (t +:+ u).
Proof. induction s as [|a s IH]; simpl; [done | by rewrite IH]. Qed.

Lemma length_app (s t : string) :
  String.length (s +:+ t) = String.length s + String.length t.
Proof. induction s as [|a s IH]; simpl; [done | by rewrite IH]. Qed.

Lemma app_inv_head (p s t : string) : p +:+ s = p +:+ t -> s = t.
Proof. induction p as [|a p IH]; simpl; [done|]. intros [= E]. auto. Qed.

(** Two decompositions of a string whose first parts have the same
    length are the same decomposition. *)
Lemma app_inj_length (p q s t : string) :
  String.length p = String.length q ->
  p +:+ s = q +:+ t -> p = q /\ s = t.
Proof.
  revert q. induction p as [|a p IH]; intros [|b q] Hlen E;
    simpl in *; try done.
  injection E as -> E. destruct (IH q) as [-> ->]; [lia | done | done].
Qed.

(** A string that has room for only the first part is that part. *)
Lemma app_snoc_inj (s t : string) (a b : ascii) :
  s +:+ String a "" = t +:+ String b "" -> s = t /\ a = b.
Proof.
  revert t. induction s as [|x s IH]; intros [|y t] E; simpl in E.
  - by injection E as ->.
  - injection E as -> E. by destruct t.
  - injection E as -> E. by destruct s.
  - injection E as -> E. by destruct (IH t E) as [-> ->].
Qed.

Lemma isPrefix_refl (s : string) : isPrefix s s.
Proof. exists "". by rewrite app_nil_r. Qed.

Lemma isPrefix_app_inv (p s t : string) :
  isPrefix (p +:+ s) (p +:+ t) -> isPrefix s t.
Proof.
  intros [r E]. exists r. rewrite app_assoc in E. by apply app_inv_head in E.
Qed.

Lemma isPrefix_nil_inv (s : string) : isPrefix s "" -> s = "".
Proof. intros [r E]. by destruct s. Qed.

Lemma ascii_compare_refl (a : ascii) : Ascii.compare a a = Eq.
Proof. unfold Ascii.compare. apply N.compare_refl. Qed.

(** A common prefix does not matter to the comparison. *)
Lemma compare_app_head (p s t : string) :
  (p +:+ s ?= p +:+ t)%string = (s ?= t)%string.
Proof.
  induction p as [|a p IH]; simpl; [done|]. by rewrite ascii_compare_refl.
Qed.

(** First parts of the same length are compared first. *)
Lemma compare_app_length (p q s t : string) :
  String.length p = String.length q ->
  (p +:+ s ?= q +:+ t)%string =
  match (p ?= q)%string with Eq => (s ?= t)%string | c => c end.
Proof.
  revert q. induction p as [|a p IH]; intros [|b q] Hlen; simpl in *;
    try done.
  destruct (Ascii.compare a b); [apply IH; lia | done | done].
Qed.

End Str.

(** ** [strconv.Itoa] *)

Module ItoaFacts.
Import strconv.

#[local] Arguments String.append : simpl nomatch.

Lemma formatBits_S (fuel n : nat) (acc : string) :
  formatBits (S fuel) n acc =
  if (n / 10 =? 0)%nat then String (digit (n mod 10)) acc
  else formatBits fuel (n / 10) (String (digit (n mod 10)) acc).
Proof. reflexivity. Qed.

(** What is already in the buffer stays behind the digits. *)
Lemma formatBits_acc (fuel n : nat) (acc : string) :
  formatBits fuel n acc = formatBits fuel n "" +:+ acc.
Proof.
  revert n acc. induction fuel as [|fuel IH]; intros n acc; [done|].
  rewrite !formatBits_S. destruct (n / 10 =? 0)%nat; [done|].
  rewrite IH, (IH _ (String _ "")), Str.app_assoc. done.
Qed.

(** Fuel above the number is enough: more changes nothing. *)
Lemma formatBits_fuel (fuel fuel' n : nat) (acc : string) :
  n < fuel -> n < fuel' -> formatBits fuel n acc = formatBits fuel' n acc.
Proof.
  revert fuel' n acc. induction fuel as [|fuel IH];
    intros [|fuel'] n acc Hn Hn'; try lia.
  rewrite !formatBits_S. destruct (Nat.eqb_spec (n / 10) 0) as [|Hq]; [done|].
  assert (n / 10 < n) by (apply Nat.div_lt; [destruct n; [done | lia] | lia]).
  apply IH; lia.
Qed.

Lemma Itoa_small (n : nat) : n < 10 -> Itoa n = String (digit n) "".
Proof.
  intros Hn. unfold Itoa. rewrite formatBits_S.
  rewrite Nat.div_small, Nat.mod_small by done. done.
Qed.

Lemma Itoa_step (n : nat) :
  10 <= n -> Itoa n = Itoa (n / 10) +:+ String (digit (n mod 10)) "".
Proof.
  intros Hn. unfold Itoa. rewrite formatBits_S.
  assert (0 < n / 10) by (apply Nat.div_str_pos; lia).
  assert (n / 10 < n) by (apply Nat.div_lt; lia).
  destruct (Nat.eqb_spec (n / 10) 0); [lia|].
  rewrite formatBits_acc. f_equal. apply formatBits_fuel; lia.
Qed.

Lemma N_of_digit (d : nat) : d < 10 -> N_of_ascii (digit d) = N.of_nat (48 + d).
Proof.
  intros Hd. unfold digit.
  rewrite <- (nat_ascii_embedding (48 + d)) at 2 by lia.
  unfold nat_of_ascii. by rewrite N2Nat.id.
Qed.

Lemma digit_inj (d e : nat) : d < 10 -> e < 10 -> digit d = digit e -> d = e.
Proof.
  intros Hd He E. apply (f_equal N_of_ascii) in E.
  rewrite !N_of_digit in E by done. lia.
Qed.

(** The representation is never empty, and that of a positive number
    starts with a digit from 1 to 9. *)
Lemma Itoa_head (n : nat) :
  exists d r, Itoa n = String (digit d) r /\ d < 10 /\ (0 < n -> 0 < d).
Proof.
  induction (lt_wf n) as [n _ IH].
  destruct (le_lt_dec 10 n) as [Hn|Hn].
  - destruct (IH (n / 10)) as (d & r & E & Hd & Hpos).
    { apply Nat.div_lt; lia. }
    exists d, (r +:+ String (digit (n mod 10)) "").
    rewrite Itoa_step, E by done. split; [done|]. split; [done|].
    intros _. apply Hpos, Nat.div_str_pos. lia.
  - exists n, "". rewrite Itoa_small by done. auto.
Qed.

Lemma Itoa_length_pos (n : nat) : 0 < String.length (Itoa n).
Proof. destruct (Itoa_head n) as (d & r & -> & _). simpl. lia. Qed.

(** The number of digits: a positive [n] has [w] digits exactly when
    [10^(w-1) <= n < 10^w]. *)
Lemma Itoa_length (n : nat) :
  0 < n ->
  10 ^ (String.length (Itoa n) - 1) <= n < 10 ^ String.length (Itoa n).
Proof.
  induction (lt_wf n) as [n _ IH]. intros Hpos.
  destruct (le_lt_dec 10 n) as [Hn|Hn].
  - rewrite Itoa_step, Str.length_app by done. cbn [String.length].
    assert (0 < n / 10) as Hq by (apply Nat.div_str_pos; lia).
    destruct (IH (n / 10)) as [Hlo Hhi]; [apply Nat.div_lt; lia | done |].
    pose proof (Itoa_length_pos (n / 10)) as Hlen.
    pose proof (Nat.div_mod_eq n 10) as Hdm.
    pose proof (Nat.mod_upper_bound n 10) as Hm.
    destruct (String.length (Itoa (n / 10))) as [|w]; [lia|].
    replace (S w + 1 - 1) with (S w) by lia.
    replace (S w + 1) with (S (S w)) by lia.
    replace (S w - 1) with w in Hlo by lia.
    rewrite (Nat.pow_succ_r' 10 (S w)).
    set (p := 10 ^ S w) in *. set (q := 10 ^ w) in *.
    assert (p = 10 * q) by apply Nat.pow_succ_r'.
    lia.
  - rewrite Itoa_small by done. simpl. lia.
Qed.

Lemma Itoa_inj (n m : nat) : Itoa n = Itoa m -> n = m.
Proof.
  revert m. induction (lt_wf n) as [n _ IH]. intros m E.
  destruct (le_lt_dec 10 n) as [Hn|Hn], (le_lt_dec 10 m) as [Hm|Hm].
  - rewrite (Itoa_step n), (Itoa_step m) in E by done.
    apply Str.app_snoc_inj in E as [Eq Ed].
    apply IH in Eq; [|apply Nat.div_lt; lia].
    apply digit_inj in Ed; [|by apply Nat.mod_upper_bound..].
    rewrite (Nat.div_mod_eq n 10), (Nat.div_mod_eq m 10). lia.
  - apply (f_equal String.length) in E.
    rewrite (Itoa_step n), (Itoa_small m), Str.length_app in E by done.
    pose proof (Itoa_length_pos (n / 10)). cbn [String.length] in E. lia.
  - apply (f_equal String.length) in E.
    rewrite (Itoa_step m), (Itoa_small n), Str.length_app in E by done.
    pose proof (Itoa_length_pos (m / 10)). cbn [String.length] in E. lia.
  - rewrite (Itoa_small n), (Itoa_small m) in E by done.
    injection E as E. by apply digit_inj.
Qed.

End ItoaFacts.

(** ** The codec *)

Module Codec.

#[local] Arguments String.append : simpl nomatch.

Lemma fold_WriteString (keys : list string) (buf : string) :
  fold_left
    (fun keyBuffer key =>
       bytes.WriteString
         (bytes.WriteString keyBuffer (strconv.Itoa (String.length key))) key)
    keys buf
  = buf +:+ segments keys.
Proof.
  revert buf. induction keys as [|key keys IH]; intros buf; simpl.
  - by rewrite Str.app_nil_r.
  - rewrite IH. unfold bytes.WriteString. by rewrite !Str.app_assoc.
Qed.

(** The key is the object type followed by the segments of the tuple. *)
Lemma createCompoundKey_segments (objectType : string) (keys : list string) :
  createCompoundKey objectType keys = (objectType +:+ segments keys, None).
Proof.
  unfold createCompoundKey, bytes.String, bytes.empty.
  by rewrite fold_WriteString.
Qed.

Lemma queryRange_segments (objectType : string) (keys : list string) :
  queryRange objectType keys =
  ((objectType +:+ segments keys) +:+ "1", (objectType +:+ segments keys) +:+ ":").
Proof. unfold queryRange. by rewrite createCompoundKey_segments. Qed.

Lemma segments_app (a b : list string) :
  segments (a ++ b) = segments a +:+ segments b.
Proof.
  induction a as [|x a IH]; simpl; [done|].
  by rewrite IH, !Str.app_assoc.
Qed.

(** Fields shorter than 10 bytes have one-digit lengths. *)
Lemma uniformFields_short (keys : list string) :
  Forall (fun key => String.length key < 10) keys -> uniformFields 1 keys.
Proof.
  intros H. eapply Forall_impl; [exact H|].
  intros key Hlen. unfold lengthDigits. by rewrite ItoaFacts.Itoa_small.
Qed.

(** With lengths of one width the segments can be read back: the
    segments of a tuple start those of another only if the tuple starts
    it. *)
Lemma segments_isPrefix_uniform (width : nat) (a b : list string) :
  uniformFields width a -> uniformFields width b ->
  isPrefix (segments a) (segments b) -> a `prefix_of` b.
Proof.
  intros Ha. revert b. induction Ha as [|x a Hx Ha IH]; intros b Hb Hpre.
  - by exists b.
  - destruct Hb as [|y b Hy Hb].
    + apply Str.isPrefix_nil_inv, (f_equal String.length) in Hpre.
      simpl in Hpre. rewrite Str.length_app in Hpre.
      pose proof (ItoaFacts.Itoa_length_pos (String.length x)).
      cbn [String.length] in Hpre. lia.
    + destruct Hpre as [r E]. simpl in E. rewrite Str.app_assoc in E.
      apply Str.app_inj_length in E as [Elen E];
        [|unfold lengthDigits in *; congruence].
      apply ItoaFacts.Itoa_inj in Elen.
      rewrite Str.app_assoc in E.
      apply Str.app_inj_length in E as [-> E]; [|done].
      destruct (IH b Hb) as [k ->]; [by exists r|]. by exists k.
Qed.

Lemma segments_isPrefix (a b : list string) :
  a `prefix_of` b -> isPrefix (segments a) (segments b).
Proof. intros [k ->]. exists (segments k). apply segments_app. Qed.

Lemma segments_inj_uniform (width : nat) (a b : list string) :
  uniformFields width a -> uniformFields width b ->
  segments a = segments b -> a = b.
Proof.
  intros Ha Hb E.
  assert (a `prefix_of` b) as H1.
  { apply (segments_isPrefix_uniform width); [done..|].
    rewrite E. apply Str.isPrefix_refl. }
  assert (b `prefix_of` a) as H2.
  { apply (segments_isPrefix_uniform width); [done..|].
    rewrite E. apply Str.isPrefix_refl. }
  by apply (anti_symm prefix).
Qed.

End Codec.

(** ** The range of a partial-key query *)

Module Range.

#[local] Arguments String.append : simpl nomatch.

Lemma compare_nil_l (s : string) : ("" ?= s)%string <> Gt.
Proof. by destruct s. Qed.

Lemma compare_nil_r (s : string) : (s ?= "")%string <> Lt.
Proof. by destruct s. Qed.

(** The strings from ["1"] up to [":"], the latter left out: those that
    start with a character from ['1'] to ['9']. *)
Lemma isDigit19_iff (c : ascii) :
  isDigit19 c = true <-> (49 <= N_of_ascii c < 58)%N.
Proof. unfold isDigit19. rewrite andb_true_iff, !N.leb_le. lia. Qed.

Lemma inRange_digit (s : string) :
  inRange ("1", ":") s = true <->
  exists c r, s = String c r /\ isDigit19 c = true.
Proof.
  unfold inRange, String.leb, String.ltb. cbn [fst snd].
  destruct s as [|c r].
  - split; [done | by intros (? & ? & ? & _)].
  - change ("1" ?= String c r)%string
      with (match Ascii.compare "1" c with Eq => ("" ?= r)%string | x => x end).
    change (String c r ?= ":")%string
      with (match Ascii.compare c ":" with Eq => (r ?= "")%string | x => x end).
    unfold Ascii.compare.
    change (N_of_ascii "1") with 49%N. change (N_of_ascii ":") with 58%N.
    pose proof (compare_nil_l r) as Hl. pose proof (compare_nil_r r) as Hr.
    split.
    + intros H. exists c, r. split; [done|]. apply isDigit19_iff.
      destruct (N.compare_spec 49 (N_of_ascii c)),
        (N.compare_spec (N_of_ascii c) 58); try lia; try done.
      all: destruct (r ?= "")%string, ("" ?= r)%string; simpl in H; done.
    + intros (c' & r' & [= <- <-] & Hc%isDigit19_iff).
      destruct (N.compare_spec 49 (N_of_ascii c)),
        (N.compare_spec (N_of_ascii c) 58); try lia.
      by destruct ("" ?= r)%string.
Qed.

Lemma inRange_cons (a b : ascii) (lo hi s : string) :
  inRange (String a lo, String a hi) (String b s) = true <->
  a = b /\ inRange (lo, hi) s = true.
Proof.
  unfold inRange, String.leb, String.ltb. cbn [fst snd].
  change (String a lo ?= String b s)%string
    with (match Ascii.compare a b with Eq => (lo ?= s)%string | x => x end).
  change (String b s ?= String a hi)%string
    with (match Ascii.compare b a with Eq => (s ?= hi)%string | x => x end).
  rewrite (Ascii.compare_antisym b a).
  destruct (Ascii.compare a b) eqn:Hab; simpl.
  - apply Ascii.compare_eq_iff in Hab as ->. split; [by intros H; split | by intros [_ H]].
  - split; [done|].
    intros [-> _]. by rewrite Str.ascii_compare_refl in Hab.
  - split; [done|].
    intros [-> _]. by rewrite Str.ascii_compare_refl in Hab.
Qed.

Lemma inRange_nil (a : ascii) (lo hi : string) :
  inRange (String a lo, String a hi) "" = false.
Proof. reflexivity. Qed.

(** The keys of the range [[keyString+"1", keyString+":")]: [keyString]
    followed by a character from ['1'] to ['9'] and anything. *)
Lemma inRange_iff (keyString s : string) :
  inRange (keyString +:+ "1", keyString +:+ ":") s = true <->
  exists c r, s = keyString +:+ String c r /\ isDigit19 c = true.
Proof.
  revert s. induction keyString as [|a keyString IH]; intros s.
  - apply inRange_digit.
  - destruct s as [|b s]; simpl.
    + rewrite inRange_nil. split; [done | by intros (? & ? & ? & _)].
    + rewrite inRange_cons, IH. split.
      * intros [-> (c & r & -> & Hc)]. by exists c, r.
      * intros (c & r & [= -> ->] & Hc). split; [done|]. by exists c, r.
Qed.

(** [keyString] itself is below the range. *)
Lemma inRange_keyString (keyString : string) :
  inRange (keyString +:+ "1", keyString +:+ ":") keyString = false.
Proof.
  apply not_true_iff_false. intros (c & r & E & _)%inRange_iff.
  apply (f_equal String.length) in E. rewrite Str.length_app in E.
  simpl in E. lia.
Qed.

End Range.

(** ** What the encoder writes *)

(** C5 (as the code has it): the key is the object type followed, for
    each field in tuple order, by the decimal representation of the
    field's length and the field's bytes, with nothing between; the length
    is written without padding, with as many digits as it has: one digit
    ["0"] for an empty field, and [w] digits for a length [S n] exactly
    when [10^(w-1) <= S n < 10^w]. *)
Theorem createCompoundKey_decimal_lengths
    (objectType : string) (keys : list string) (key : string) (n : nat) :
  (createCompoundKey objectType keys).1 = objectType +:+ segments keys
  /\ segments (key :: keys) =
     strconv.Itoa (String.length key) +:+ key +:+ segments keys
  /\ strconv.Itoa 0 = "0"
  /\ 10 ^ (String.length (strconv.Itoa (S n)) - 1)
       <= S n < 10 ^ String.length (strconv.Itoa (S n)).
Proof.
  split; [by rewrite Codec.createCompoundKey_segments|].
  split; [done|]. split; [done|].
  apply ItoaFacts.Itoa_length. lia.
Qed.

(** C5, refuted as stated: no width fits the length prefixes of all
    fields; that of a 2-byte field has one digit, that of a 10-byte field
    two. *)
Lemma length_prefix_not_fixed_width :
  ~ (exists width, forall key : string,
        String.length (strconv.Itoa (String.length key)) = width)
  /\ (createCompoundKey "Marble" ["ab"]).1 = "Marble2ab"
  /\ (createCompoundKey "Marble" ["abcdefghij"]).1 = "Marble10abcdefghij".
Proof.
  split; [|done].
  intros [width Hw].
  pose proof (Hw "ab") as H2. pose proof (Hw "abcdefghij") as H10.
  vm_compute in H2, H10. congruence.
Qed.

(** ** The failure modes of the encoder *)

(** C7 (as the code has it): [createCompoundKey] returns a key and a
    [nil] error for every object type and every tuple, the empty tuple
    and fields of any length included. *)
Theorem createCompoundKey_never_fails
    (objectType : string) (keys : list string) :
  exists compoundKey,
    createCompoundKey objectType keys = (compoundKey, None)
    /\ compoundKey = objectType +:+ segments keys.
Proof.
  exists (objectType +:+ segments keys).
  by rewrite Codec.createCompoundKey_segments.
Qed.

(** C7, refuted as stated: the empty tuple is encoded without an error,
    and so is a field of 10000 bytes, longer than any 4-digit width. *)
Lemma createCompoundKey_empty_tuple_succeeds :
  createCompoundKey "Marble" [] = ("Marble", None)
  /\ (createCompoundKey "Marble" [String.concat "" (replicate (100 * 100) "a")]).2
     = None.
Proof. split; reflexivity. Qed.

(** ** The partial-key query *)

Module Query.

#[local] Arguments String.append : simpl nomatch.

Lemma alter_app_last {A} (f : A -> A) (l : list A) (x : A) :
  alter f (length l) (l ++ [x]) = l ++ [f x].
Proof. induction l as [|y l IH]; [done|]. simpl. by f_equal. Qed.

(** A successful query: what it returns and what it leaves behind. *)
Lemma partialCompoundKeyQuery_inl (stub stub' : Stub) (objectType : string)
    (keys : list string) (keysIter : nat) :
  partialCompoundKeyQuery stub objectType keys = (inl keysIter, stub') ->
  let r := queryRange objectType keys in
  keysIter = length (iterators stub)
  /\ state stub' = state stub
  /\ iterators stub' =
     iterators stub ++ [mkIter (rangeScan (state stub) r.1 r.2) true]
  /\ trace stub' =
     trace stub ++ [EvRangeQueryState r.1 r.2 (Some keysIter); EvClose keysIter].
Proof.
  unfold partialCompoundKeyQuery, queryRange.
  destruct (createCompoundKey objectType keys) as [keyString e].
  unfold RangeQueryState, Close, nextFailure, record.
  destruct stub as [st its fs tr]; simpl.
  destruct fs as [|[] fs]; simpl; try done.
  - intros [= <- <-]. simpl.
    by rewrite alter_app_last, <- app_assoc.
  - destruct fs as [|f fs]; simpl; intros [= <- <-]; simpl.
    all: by rewrite alter_app_last, <- app_assoc.
Qed.

(** Every call makes one range query, with these bounds. *)
Lemma partialCompoundKeyQuery_trace (stub : Stub) (objectType : string)
    (keys : list string) :
  let r := queryRange objectType keys in
  exists iter,
    trace (partialCompoundKeyQuery stub objectType keys).2 =
    trace stub ++ EvRangeQueryState r.1 r.2 iter ::
      match iter with Some keysIter => [EvClose keysIter] | None => [] end.
Proof.
  unfold partialCompoundKeyQuery, queryRange.
  destruct (createCompoundKey objectType keys) as [keyString e].
  unfold RangeQueryState, Close, nextFailure, record.
  destruct stub as [st its fs tr]; simpl.
  destruct fs as [|[] fs]; simpl.
  - exists (Some (length its)). by rewrite <- app_assoc.
  - by exists None.
  - exists (Some (length its)). destruct fs; simpl; by rewrite <- app_assoc.
Qed.

End Query.

(** C4 (as the code has it): for every object type and every prefix of
    field values, the one range query that [partialCompoundKeyQuery]
    makes starts at the encoded prefix key followed by the character
    ['1'] and ends at the encoded prefix key followed by [':'], the
    character after ['9']. *)
Theorem partialCompoundKeyQuery_bounds
    (stub : Stub) (objectType : string) (keys : list string) :
  exists keyString iter,
    createCompoundKey objectType keys = (keyString, None)
    /\ queryRange objectType keys = (keyString +:+ "1", keyString +:+ ":")
    /\ trace (partialCompoundKeyQuery stub objectType keys).2 =
       trace stub
       ++ EvRangeQueryState (keyString +:+ "1") (keyString +:+ ":") iter
       :: match iter with Some keysIter => [EvClose keysIter] | None => [] end.
Proof.
  destruct (Query.partialCompoundKeyQuery_trace stub objectType keys)
    as [iter Htrace].
  exists (objectType +:+ segments keys), iter.
  rewrite Codec.queryRange_segments in Htrace.
  by rewrite Codec.createCompoundKey_segments, Codec.queryRange_segments.
Qed.

(** C4, refuted as stated: for the prefix [["blue"]] of object type
    ["Marble"] the range starts after the encoded prefix key, not at it,
    and its end is not the prefix key with its last byte incremented. *)
Lemma partialCompoundKeyQuery_bounds_blue :
  let stub := mkStub ∅ [] [] [] in
  trace (partialCompoundKeyQuery stub "Marble" ["blue"]).2 =
    [EvRangeQueryState "Marble4blue1" "Marble4blue:" (Some 0); EvClose 0]
  /\ (createCompoundKey "Marble" ["blue"]).1 = "Marble4blue"
  /\ "Marble4blue1" <> "Marble4blue"
  /\ prefixSuccessor "Marble4blue" = Some "Marble4bluf"
  /\ "Marble4blue:" <> "Marble4bluf".
Proof. repeat split; done. Qed.

(** ** Keys of distinct tuples *)

(** X2: among tuples whose field lengths are all written with the same
    number of digits (all fields shorter than 10 bytes, say) the encoding
    is injective: the lengths can be read back. *)
Lemma createCompoundKey_inj_uniform (width : nat) (objectType : string)
    (a b : list string) :
  uniformFields width a -> uniformFields width b ->
  createCompoundKey objectType a = createCompoundKey objectType b -> a = b.
Proof.
  intros Ha Hb. rewrite !Codec.createCompoundKey_segments. intros [= E].
  apply Str.app_inv_head in E. by apply (Codec.segments_inj_uniform width).
Qed.

Lemma createCompoundKey_inj_uniform_witness :
  ["blue"; "rose"] = ["blue"; "rose"].
Proof.
  apply (createCompoundKey_inj_uniform 1 "Marble" ["blue"; "rose"]
           ["blue"; "rose"]).
  - unfold uniformFields. repeat constructor.
  - unfold uniformFields. repeat constructor.
  - reflexivity.
Defined.

(** C2, violated by the code: two distinct tuples of two fields with the
    same compound key. A 1-byte field followed by a 12-byte field and an
    11-byte field followed by a 2-byte field both give the digits
    ["1112"], which [Itoa] writes without a mark of where a length
    ends. A record put under the second tuple replaces the record of the
    first. *)
Theorem createCompoundKey_collision :
  let a := ["1"; "aaaaaaaaa2zz"] in
  let b := ["12aaaaaaaaa"; "zz"] in
  let stub := mkStub ∅ [] [] [] in
  a <> b
  /\ createCompoundKey "Marble" a = ("Marble1112aaaaaaaaa2zz", None)
  /\ createCompoundKey "Marble" b = ("Marble1112aaaaaaaaa2zz", None)
  /\ (getExact (put (put stub "Marble" a "first").2 "Marble" b "second").2
        "Marble" a).1 = (Some "second", None).
Proof.
  split; [done|]. split; [reflexivity|]. split; [reflexivity|].
  vm_compute. reflexivity.
Qed.

(** C3 (as the code has it): for tuples whose field lengths are all
    written with the same number of digits (all fields shorter than 10
    bytes, say), the key of a tuple is a byte-prefix of the key of another
    exactly when the first tuple is a prefix of the second; so of two
    distinct tuples of the same arity neither key is a byte-prefix of the
    other, and the key of a tuple is a byte-prefix of the keys of all
    its extensions, which is what a partial-key query relies on. *)
Theorem createCompoundKey_prefix_iff
    (width : nat) (objectType : string) (a b : list string) :
  uniformFields width a -> uniformFields width b ->
  (isPrefix (createCompoundKey objectType a).1
     (createCompoundKey objectType b).1 <-> a `prefix_of` b)
  /\ (isPrefix (createCompoundKey objectType a).1
        (createCompoundKey objectType b).1 /\ length a = length b <-> a = b).
Proof.
  intros Ha Hb. rewrite !Codec.createCompoundKey_segments. simpl.
  assert (isPrefix (objectType +:+ segments a) (objectType +:+ segments b)
          <-> a `prefix_of` b) as Hiff.
  { split.
    - intros Hpre%Str.isPrefix_app_inv.
      by apply (Codec.segments_isPrefix_uniform width).
    - intros [r E]%Codec.segments_isPrefix. exists r.
      by rewrite E, Str.app_assoc. }
  split; [done|]. rewrite Hiff. split.
  - intros [[k ->] Hlen]. rewrite length_app in Hlen.
    destruct k; [by rewrite app_nil_r | simpl in Hlen; lia].
  - intros ->. done.
Qed.

Lemma createCompoundKey_prefix_iff_witness :
  (isPrefix (createCompoundKey "Marble" ["blue"]).1
     (createCompoundKey "Marble" ["blue"; "rose"]).1
   <-> ["blue"] `prefix_of` ["blue"; "rose"])
  /\ (isPrefix (createCompoundKey "Marble" ["blue"]).1
        (createCompoundKey "Marble" ["blue"; "rose"]).1
      /\ length ["blue"] = length ["blue"; "rose"]
      <-> ["blue"] = ["blue"; "rose"]).
Proof.
  apply (createCompoundKey_prefix_iff 1 "Marble" ["blue"] ["blue"; "rose"]);
    unfold uniformFields; repeat constructor.
Defined.

(** C3, refuted as stated: the tuples [["blue"]] and [["blue"; "rose"]]
    are distinct and the key of the first is a byte-prefix of the key of
    the second. *)
Lemma createCompoundKey_prefix_of_extension :
  ["blue"] <> ["blue"; "rose"]
  /\ (createCompoundKey "Marble" ["blue"]).1 = "Marble4blue"
  /\ (createCompoundKey "Marble" ["blue"; "rose"]).1 = "Marble4blue4rose"
  /\ isPrefix (createCompoundKey "Marble" ["blue"]).1
       (createCompoundKey "Marble" ["blue"; "rose"]).1.
Proof. repeat split; [done | by exists "4rose"]. Qed.

(** ** The keys a partial-key query finds *)

Lemma isDigit19_digit (d : nat) :
  0 < d -> d < 10 -> isDigit19 (strconv.digit d) = true.
Proof.
  intros Hpos Hd. apply Range.isDigit19_iff.
  rewrite ItoaFacts.N_of_digit by done. lia.
Qed.

(** The key of a tuple that extends the partial keys with a non-empty
    field next is in the range, whatever the lengths of the fields. *)
Lemma queryRange_complete (objectType : string)
    (partial rest : list string) (next : string) :
  0 < String.length next ->
  inRange (queryRange objectType partial)
    (createCompoundKey objectType (partial ++ next :: rest)).1 = true.
Proof.
  intros Hnext.
  rewrite Codec.queryRange_segments, Codec.createCompoundKey_segments.
  apply Range.inRange_iff.
  destruct (ItoaFacts.Itoa_head (String.length next)) as (d & r & E & Hd & Hpos).
  exists (strconv.digit d), (r +:+ next +:+ segments rest).
  split; [|by apply isDigit19_digit; auto].
  rewrite Codec.segments_app. simpl. rewrite E.
  by rewrite !Str.app_assoc.
Qed.

(** X4: the key of the partial keys themselves is below the range of
    their query: a query with all the fields of a tuple does not find the
    record of that tuple. *)
Lemma queryRange_excludes_exact (objectType : string) (keys : list string) :
  inRange (queryRange objectType keys) (createCompoundKey objectType keys).1
  = false.
Proof.
  rewrite Codec.queryRange_segments, Codec.createCompoundKey_segments.
  apply Range.inRange_keyString.
Qed.

(** X5: the key of a tuple whose next field is empty is below the range:
    its next length is written ["0"], and the range starts at ["1"]. *)
Lemma queryRange_excludes_empty_next (objectType : string)
    (partial rest : list string) :
  inRange (queryRange objectType partial)
    (createCompoundKey objectType (partial ++ "" :: rest)).1 = false.
Proof.
  rewrite Codec.queryRange_segments, Codec.createCompoundKey_segments.
  apply not_true_iff_false. intros (c & r & E & Hc)%Range.inRange_iff.
  simpl in E. rewrite Codec.segments_app, <- Str.app_assoc in E.
  apply Str.app_inv_head in E. injection E as <- _. done.
Qed.

(** C1 (as the code has it): for object types of the same byte length,
    partial keys and tuples whose field lengths are all written with the
    same number of digits (all fields shorter than 10 bytes, say), and a
    tuple that has a non-empty field after its first [k] ones, the range
    of the partial-key query contains the key of the tuple exactly when
    the object types are equal and the first [k] fields of the tuple are
    the partial keys. *)
Theorem queryRange_contains_iff
    (width : nat) (objectType objectType' : string)
    (partial full : list string) (next : string) :
  String.length objectType' = String.length objectType ->
  uniformFields width partial -> uniformFields width full ->
  full !! length partial = Some next -> 0 < String.length next ->
  inRange (queryRange objectType partial)
    (createCompoundKey objectType' full).1 = true
  <-> objectType' = objectType /\ take (length partial) full = partial.
Proof.
  intros Hlen Hp Hf Hnext Hpos. split.
  - rewrite Codec.queryRange_segments, Codec.createCompoundKey_segments.
    simpl. intros (c & r & E & _)%Range.inRange_iff.
    rewrite Str.app_assoc in E.
    apply Str.app_inj_length in E as [-> E]; [|done]. split; [done|].
    destruct (Codec.segments_isPrefix_uniform width partial full) as [k ->];
      [done | done | by eexists |].
    by rewrite take_app_length.
  - intros [-> Htake].
    rewrite <- (take_drop (length partial) full), Htake.
    rewrite (drop_S _ _ _ Hnext).
    by apply queryRange_complete.
Qed.

Lemma queryRange_contains_iff_witness :
  inRange (queryRange "Marble" ["blue"])
    (createCompoundKey "Marble" ["blue"; "rose"]).1 = true
  <-> "Marble" = "Marble" /\ take (length ["blue"]) ["blue"; "rose"] = ["blue"].
Proof.
  apply (queryRange_contains_iff 1 "Marble" "Marble" ["blue"]
           ["blue"; "rose"] "rose");
    unfold uniformFields; repeat constructor.
Defined.

(** C1, refuted as stated, in both directions and for the object types:
    the key of the full tuple [["blue"; "rose"]] is not in the range of
    the query for that tuple ([k = N]); the key of a tuple whose first
    field is 15 bytes long and starts with a digit is in the range of the
    query for the partial key [["5"]]; the key of a tuple of the object
    type ["Marble4blue"] is in the range of the query for [["blue"]] of
    the object type ["Marble"]. *)
Lemma queryRange_misses_and_false_matches :
  (take 2 ["blue"; "rose"] = ["blue"; "rose"]
   /\ inRange (queryRange "Marble" ["blue"; "rose"])
        (createCompoundKey "Marble" ["blue"; "rose"]).1 = false)
  /\ (take 1 ["1bcdefghijklmno"; "x"] <> ["5"]
      /\ inRange (queryRange "Marble" ["5"])
           (createCompoundKey "Marble" ["1bcdefghijklmno"; "x"]).1 = true)
  /\ ("Marble4blue" <> "Marble"
      /\ inRange (queryRange "Marble" ["blue"])
           (createCompoundKey "Marble4blue" ["x"]).1 = true).
Proof. repeat split; done. Qed.

(** ** Put and get under a compound key *)

Module StubFacts.

Lemma nextFailure_nil (stub : Stub) :
  failures stub = [] -> nextFailure stub = (false, stub).
Proof. unfold nextFailure. by intros ->. Qed.

Lemma PutState_ok (stub : Stub) (key value : string) :
  failures stub = [] ->
  PutState stub key value =
  (None,
   mkStub (<[key := value]> (state stub)) (iterators stub) []
     (trace stub ++ [EvPutState key value])).
Proof.
  intros Hf. unfold PutState. rewrite nextFailure_nil by done.
  unfold record. simpl. by rewrite Hf.
Qed.

Lemma GetState_ok (stub : Stub) (key : string) :
  failures stub = [] ->
  GetState stub key =
  ((state stub !! key, None),
   mkStub (state stub) (iterators stub) []
     (trace stub ++ [EvGetState key (state stub !! key)])).
Proof.
  intros Hf. unfold GetState. rewrite nextFailure_nil by done.
  unfold record. simpl. by rewrite Hf.
Qed.

(** Whether it fails or not, [PutState] changes the state at most at its
    key, and [GetState] not at all. *)
Lemma PutState_frame (stub : Stub) (key value k : string) :
  k <> key -> state (PutState stub key value).2 !! k = state stub !! k.
Proof.
  intros Hne. unfold PutState, nextFailure, record.
  destruct (failures stub) as [|[] fs]; simpl; try done.
  all: by rewrite lookup_insert_ne.
Qed.

Lemma GetState_state (stub : Stub) (key : string) :
  state (GetState stub key).2 = state stub.
Proof.
  unfold GetState, nextFailure, record.
  by destruct (failures stub) as [|[] fs].
Qed.

Lemma PutState_trace (stub : Stub) (key value : string) :
  trace (PutState stub key value).2 = trace stub ++ [EvPutState key value].
Proof.
  unfold PutState, nextFailure, record.
  by destruct (failures stub) as [|[] fs].
Qed.

Lemma GetState_trace (stub : Stub) (key : string) :
  exists value,
    trace (GetState stub key).2 = trace stub ++ [EvGetState key value].
Proof.
  unfold GetState, nextFailure, record.
  destruct (failures stub) as [|[] fs]; simpl; by eexists.
Qed.

End StubFacts.

(** [init_marble_json] is a [put] of the marble's JSON under the tuple
    (color, name), and [get_marble_json] a [getExact] under the tuple
    made of its two arguments. *)
Lemma init_marble_json_put `{GoLib} (stub : Stub) (name color size owner : string) :
  (init_marble_json stub [name; color; size; owner]).2 =
  (put stub "Marble" [strings_ToLower color; name]
     (json_Marshal
        (mkMarble "Marble" name (strings_ToLower color) (strconv_Atoi size)
           (strings_ToLower owner)))).2.
Proof.
  unfold init_marble_json, put. cbn [Color Name].
  rewrite Codec.createCompoundKey_segments.
  by destruct (PutState _ _ _).
Qed.

Lemma get_marble_json_getExact `{GoLib} (stub : Stub) (name color : string)
    (args : list string) :
  (get_marble_json stub (name :: color :: args)).2 =
  (getExact stub "Marble" [color; name]).2.
Proof.
  unfold get_marble_json, getExact.
  rewrite Codec.createCompoundKey_segments.
  by destruct (GetState _ _) as [[? ?] ?].
Qed.

(** A call that the peer does not fail takes the state through. *)
Lemma PutState_succeeds (stub : Stub) (key value : string) :
  failures stub !! 0 <> Some true ->
  PutState stub key value =
  (None,
   mkStub (<[key := value]> (state stub)) (iterators stub)
     (tail (failures stub)) (trace stub ++ [EvPutState key value])).
Proof.
  destruct stub as [st its fs tr]. unfold PutState, nextFailure, record.
  simpl. by destruct fs as [|[] fs].
Qed.

Lemma GetState_succeeds (stub : Stub) (key : string) :
  failures stub !! 0 <> Some true ->
  GetState stub key =
  ((state stub !! key, None),
   mkStub (state stub) (iterators stub) (tail (failures stub))
     (trace stub ++ [EvGetState key (state stub !! key)])).
Proof.
  destruct stub as [st its fs tr]. unfold GetState, nextFailure, record.
  simpl. by destruct fs as [|[] fs].
Qed.

Lemma failures_tail (fs : list bool) :
  fs !! 1 <> Some true -> tail fs !! 0 <> Some true.
Proof. by destruct fs. Qed.

(** C8: when the peer fails neither the [PutState] nor the [GetState], a
    [put] of a payload under the compound key of a tuple followed by a
    [getExact] with the same object type and tuple returns that payload,
    whatever the payload: the two calls are made under the same key, the
    object type followed by the segments of the tuple. [init_marble_json]
    and [get_marble_json] are this [put] and this [getExact] for the
    object type ["Marble"], the tuple (lower-cased color, name) and the
    JSON of the marble: the [GetState] of [get_marble_json] reads the JSON
    that [init_marble_json] has stored. *)
Theorem put_getExact_handlers_roundtrip `{GoLib}
    (stub : Stub) (objectType : string) (keys : list string)
    (payload name color size owner : string) (args : list string) :
  failures stub !! 0 <> Some true ->
  failures stub !! 1 <> Some true ->
  let compoundKey := objectType +:+ segments keys in
  let marble :=
    mkMarble "Marble" name (strings_ToLower color) (strconv_Atoi size)
      (strings_ToLower owner) in
  let marbleKey := "Marble" +:+ segments [strings_ToLower color; name] in
  let stub1 := (init_marble_json stub [name; color; size; owner]).2 in
  createCompoundKey objectType keys = (compoundKey, None)
  /\ (put stub objectType keys payload).1 = None
  /\ (getExact (put stub objectType keys payload).2 objectType keys).1
     = (Some payload, None)
  /\ trace (getExact (put stub objectType keys payload).2 objectType keys).2
     = trace stub
       ++ [EvPutState compoundKey payload;
           EvGetState compoundKey (Some payload)]
  /\ stub1 = (put stub "Marble" [strings_ToLower color; name]
                (json_Marshal marble)).2
  /\ state stub1 !! marbleKey = Some (json_Marshal marble)
  /\ trace (get_marble_json stub1 (name :: strings_ToLower color :: args)).2
     = trace stub
       ++ [EvPutState marbleKey (json_Marshal marble);
           EvGetState marbleKey (Some (json_Marshal marble))].
Proof.
  intros Hput Hget compoundKey marble marbleKey stub1.
  assert (forall t ks p,
            (put stub t ks p).1 = None
            /\ (getExact (put stub t ks p).2 t ks).1 = (Some p, None)
            /\ state (put stub t ks p).2 !! (t +:+ segments ks) = Some p
            /\ trace (getExact (put stub t ks p).2 t ks).2
               = trace stub
                 ++ [EvPutState (t +:+ segments ks) p;
                     EvGetState (t +:+ segments ks) (Some p)]) as Hround.
  { intros t ks p. unfold put, getExact.
    rewrite Codec.createCompoundKey_segments.
    rewrite PutState_succeeds by done. cbn [fst snd].
    rewrite GetState_succeeds by (by apply failures_tail).
    cbn [fst snd state trace].
    by rewrite lookup_insert_eq, <- app_assoc. }
  split; [apply Codec.createCompoundKey_segments|].
  destruct (Hround objectType keys payload) as (H1 & H2 & _ & H3).
  split; [done|]. split; [done|]. split; [done|].
  subst stub1. rewrite get_marble_json_getExact, init_marble_json_put.
  destruct (Hround "Marble" [strings_ToLower color; name]
              (json_Marshal marble)) as (_ & _ & H4 & H5).
  done.
Qed.

Lemma put_getExact_handlers_roundtrip_witness :
  let stub := mkStub ∅ [] [false; false; true] [] in
  let stub1 :=
    (@init_marble_json asciiLib stub ["rose"; "Blue"; "35"; "Bob"]).2 in
  createCompoundKey "Order" ["2024"; "17"] = ("Order" +:+ "42024217", None)
  /\ (put stub "Order" ["2024"; "17"] "").1 = None
  /\ (getExact (put stub "Order" ["2024"; "17"] "").2 "Order" ["2024"; "17"]).1
     = (Some "", None)
  /\ trace (getExact (put stub "Order" ["2024"; "17"] "").2 "Order"
              ["2024"; "17"]).2
     = [] ++ [EvPutState ("Order" +:+ "42024217") "";
              EvGetState ("Order" +:+ "42024217") (Some "")]
  /\ stub1 = (put stub "Marble" ["blue"; "rose"] "rose:bob").2
  /\ state stub1 !! ("Marble" +:+ "4blue4rose") = Some "rose:bob"
  /\ trace (@get_marble_json asciiLib stub1 ["rose"; "blue"]).2
     = [] ++ [EvPutState ("Marble" +:+ "4blue4rose") "rose:bob";
              EvGetState ("Marble" +:+ "4blue4rose") (Some "rose:bob")].
Proof.
  apply (@put_getExact_handlers_roundtrip asciiLib
           (mkStub ∅ [] [false; false; true] []) "Order" ["2024"; "17"]
           "" "rose" "Blue" "35" "Bob" []).
  - simpl. discriminate.
  - simpl. discriminate.
Defined.

(** X14: the same through the handlers: the [GetState] of
    [get_marble_json] reads what [init_marble_json] has put, when the
    color given to it is the lower-case one under which the marble was
    stored. *)
Lemma marble_json_roundtrip `{GoLib} (stub : Stub)
    (name color size owner : string) (args : list string) :
  failures stub = [] ->
  let marble :=
    mkMarble "Marble" name (strings_ToLower color) (strconv_Atoi size)
      (strings_ToLower owner) in
  let stub1 := (init_marble_json stub [name; color; size; owner]).2 in
  exists compoundKey,
    createCompoundKey "Marble" [strings_ToLower color; name] = (compoundKey, None)
    /\ trace (get_marble_json stub1 (name :: strings_ToLower color :: args)).2 =
       trace stub
       ++ [EvPutState compoundKey (json_Marshal marble);
           EvGetState compoundKey (Some (json_Marshal marble))].
Proof.
  intros Hf marble stub1. subst stub1.
  rewrite get_marble_json_getExact, init_marble_json_put.
  unfold put, getExact. rewrite Codec.createCompoundKey_segments.
  eexists. split; [done|].
  rewrite StubFacts.PutState_ok by done.
  rewrite StubFacts.GetState_ok by done. simpl.
  by rewrite lookup_insert_eq, <- app_assoc.
Qed.

(** ** The iterator that a partial-key query returns *)

(** C9: the iterator that a successful [partialCompoundKeyQuery] returns
    has been closed by the deferred [Close] before the caller receives
    it: it did not exist before the call, the call opens it with the range
    query and closes it, in that order and with nothing between, and
    hands it out closed. *)
Theorem partialCompoundKeyQuery_returns_closed
    (stub stub' : Stub) (objectType : string) (keys : list string)
    (keysIter : nat) :
  partialCompoundKeyQuery stub objectType keys = (inl keysIter, stub') ->
  iterators stub !! keysIter = None
  /\ isClosed stub' keysIter = true
  /\ exists startKey endKey,
       trace stub' =
       trace stub
       ++ [EvRangeQueryState startKey endKey (Some keysIter); EvClose keysIter].
Proof.
  intros (-> & _ & Hits & Htrace)%Query.partialCompoundKeyQuery_inl.
  split; [by apply lookup_ge_None_2|]. split.
  - unfold isClosed. rewrite Hits, lookup_app_r, Nat.sub_diag by lia. done.
  - by eexists _, _.
Qed.

Lemma partialCompoundKeyQuery_returns_closed_witness :
  let stub := mkStub ∅ [] [] [] in
  let stub' := (partialCompoundKeyQuery stub "Marble" ["blue"]).2 in
  iterators stub !! 0 = None
  /\ isClosed stub' 0 = true
  /\ exists startKey endKey,
       trace stub' =
       trace stub ++ [EvRangeQueryState startKey endKey (Some 0); EvClose 0].
Proof.
  apply (partialCompoundKeyQuery_returns_closed (mkStub ∅ [] [] [])
           (partialCompoundKeyQuery (mkStub ∅ [] [] []) "Marble" ["blue"]).2
           "Marble" ["blue"] 0).
  reflexivity.
Defined.

Module Loop.

Lemma HasNext_trace (stub : Stub) (iter : nat) :
  trace (HasNext stub iter).2 = trace stub ++ [EvHasNext iter].
Proof. done. Qed.

Lemma Next_trace (stub : Stub) (iter : nat) :
  trace (Next stub iter).2 = trace stub ++ [EvNext iter].
Proof.
  unfold Next. destruct (iterators stub !! iter) as [[[|[k v] rest] c]|]; done.
Qed.

(** The loop only uses the iterator. *)
Lemma collectMarbles_trace `{GoLib} (fuel : nat) (stub : Stub)
    (keysIter : nat) (marbles : list Marble) :
  exists uses,
    trace (collectMarbles fuel stub keysIter marbles).2 = trace stub ++ uses
    /\ Forall (isUse keysIter) uses.
Proof.
  revert stub marbles. induction fuel as [|fuel IH]; intros stub marbles.
  - exists []. by rewrite app_nil_r.
  - cbn [collectMarbles].
    destruct (HasNext stub keysIter) as [more stub1] eqn:Hhas.
    pose proof (HasNext_trace stub keysIter) as Ht1. rewrite Hhas in Ht1.
    destruct more.
    + destruct (Next stub1 keysIter) as [[[k v] e] stub2] eqn:Hnext.
      pose proof (Next_trace stub1 keysIter) as Ht2. rewrite Hnext in Ht2.
      destruct (IH stub2 (marbles ++ [json_Unmarshal v zeroMarble]))
        as (uses & -> & Huses).
      exists (EvHasNext keysIter :: EvNext keysIter :: uses).
      simpl in *. rewrite Ht2, Ht1, <- !app_assoc. split; [done|].
      constructor; [by left|]. constructor; [by right | done].
    + exists [EvHasNext keysIter]. split; [done|].
      constructor; [by left | constructor].
Qed.

End Loop.

(** In [get_blue_marbles_json]: when the query succeeds, every [HasNext]
    and [Next] of the loop comes after the [Close] made by the query,
    on the iterator that the query has closed. *)
Lemma get_blue_marbles_json_uses_closed `{GoLib} (stub stub1 : Stub)
    (args : list string) (keysIter : nat) :
  partialCompoundKeyQuery stub "Marble" ["blue"] = (inl keysIter, stub1) ->
  isClosed stub1 keysIter = true
  /\ exists startKey endKey uses,
       Forall (isUse keysIter) uses
       /\ trace (get_blue_marbles_json stub args).2 =
          trace stub
          ++ [EvRangeQueryState startKey endKey (Some keysIter);
              EvClose keysIter]
          ++ uses ++ [EvClose keysIter].
Proof.
  intros Hq. unfold get_blue_marbles_json. rewrite Hq.
  apply Query.partialCompoundKeyQuery_inl in Hq as (-> & _ & Hits & Htrace).
  split.
  - unfold isClosed. rewrite Hits, lookup_app_r, Nat.sub_diag by lia. done.
  - destruct (Loop.collectMarbles_trace
                (S (pendingCount stub1 (length (iterators stub)))) stub1
                (length (iterators stub)) []) as (uses & Hloop & Huses).
    destruct (collectMarbles _ _ _ _) as [marbles stub2].
    eexists _, _, uses. split; [done|].
    unfold Close, nextFailure, record. simpl in Hloop.
    destruct (failures stub2) as [|f fs]; simpl;
      by rewrite Hloop, Htrace, <- !app_assoc.
Qed.

(** ** The state that [set_owner] leaves *)

Module SetOwner.

(** With two arguments or more, [set_owner] makes a [GetState] and, if
    that succeeds, a [PutState], both under its first argument. *)
Lemma set_owner_effect `{GoLib} (stub : Stub) (arg0 arg1 : string)
    (args : list string) :
  (forall k, k <> arg0 ->
     state (set_owner stub (arg0 :: arg1 :: args)).2 !! k = state stub !! k)
  /\ exists evs,
       trace (set_owner stub (arg0 :: arg1 :: args)).2 = trace stub ++ evs
       /\ Forall (fun ev => eventKey ev = Some arg0) evs.
Proof.
  unfold set_owner.
  pose proof (StubFacts.GetState_state stub arg0) as Hst.
  destruct (StubFacts.GetState_trace stub arg0) as [value Htr].
  destruct (GetState stub arg0) as [[marbleAsBytes [err|]] stub1];
    simpl in *.
  - split; [by intros k _; rewrite Hst|].
    exists [EvGetState arg0 value]. split; [done | by repeat constructor].
  - set (jsonAsBytes := json_Marshal _).
    pose proof (StubFacts.PutState_frame stub1 arg0 jsonAsBytes) as Hput.
    pose proof (StubFacts.PutState_trace stub1 arg0 jsonAsBytes) as Htr2.
    destruct (PutState stub1 arg0 jsonAsBytes) as [[err|] stub2]; simpl in *.
    all: split; [by intros k Hk; rewrite Hput, Hst|].
    all: exists [EvGetState arg0 value; EvPutState arg0 jsonAsBytes].
    all: split; [by rewrite Htr2, Htr, <- app_assoc | by repeat constructor].
Qed.

End SetOwner.

(** C10: [set_owner] reads and writes the state under its first argument
    only: every call that it makes on the state is made under that key,
    and every entry of the state under another key is after the call what
    it was before, whatever the arguments, the state, and whether the peer
    fails or not. *)
Theorem set_owner_frame `{GoLib} (stub : Stub) (args : list string)
    (key : string) :
  args !! 0 <> Some key ->
  state (set_owner stub args).2 !! key = state stub !! key
  /\ exists evs,
       trace (set_owner stub args).2 = trace stub ++ evs
       /\ Forall (fun ev => eventKey ev = args !! 0) evs.
Proof.
  intros Hkey. destruct args as [|arg0 [|arg1 args]].
  - split; [done|]. exists []. by rewrite app_nil_r.
  - split; [done|]. exists []. by rewrite app_nil_r.
  - destruct (SetOwner.set_owner_effect stub arg0 arg1 args) as [Hframe Hevs].
    split; [|done]. apply Hframe. by intros ->.
Qed.

Lemma set_owner_frame_witness :
  let stub := (@init_marble_json exampleLib (mkStub ∅ [] [] [])
                 ["rose"; "blue"; "35"; "bob"]).2 in
  state (@set_owner exampleLib stub ["rose"; "alice"]).2 !! "Marble4blue4rose"
  = state stub !! "Marble4blue4rose"
  /\ exists evs,
       trace (@set_owner exampleLib stub ["rose"; "alice"]).2 = trace stub ++ evs
       /\ Forall (fun ev => eventKey ev = ["rose"; "alice"] !! 0) evs.
Proof.
  apply (@set_owner_frame exampleLib
           (@init_marble_json exampleLib (mkStub ∅ [] [] [])
              ["rose"; "blue"; "35"; "bob"]).2
           ["rose"; "alice"] "Marble4blue4rose").
  simpl. discriminate.
Defined.

(** In particular the record that [init_marble_json] has written under
    the compound key of (color, name) is not touched by a [set_owner]
    whose first argument is not that compound key. *)
Lemma set_owner_keeps_marble_json `{GoLib} (stub : Stub)
    (name color size owner : string) (args : list string) :
  let compoundKey := (createCompoundKey "Marble" [strings_ToLower color; name]).1 in
  let stub1 := (init_marble_json stub [name; color; size; owner]).2 in
  args !! 0 <> Some compoundKey ->
  state (set_owner stub1 args).2 !! compoundKey = state stub1 !! compoundKey.
Proof.
  intros compoundKey stub1 Hkey. destruct args as [|arg0 [|arg1 args]]; try done.
  destruct (SetOwner.set_owner_effect stub1 arg0 arg1 args) as [Hframe _].
  apply Hframe. by intros ->.
Qed.

(** ** The records of a prefix scan *)

Module Scan.

#[local] Arguments String.append : simpl nomatch.




(** Fields of the same lengths: the keys compare as the tuples do. *)
Lemma compare_segments (a b : list string) :
  sameLengths a b -> (segments a ?= segments b)%string = tupleCompare a b.
Proof.
  induction 1 as [|x y a b Hlen Hab IH]; [done|].
  simpl. rewrite Hlen, Str.compare_app_head.
  rewrite Str.compare_app_length by done. by rewrite IH.
Qed.

End Scan.

(** C6 (as the code has it): the byte order of the physical keys is the
    lexicographic order of the field tuples for tuples of one object type
    whose fields have the same lengths position by position; and the one
    range query of the scan for the prefix [["ab"]] has a range that
    contains the key of every tuple that goes on after ["ab"] with a
    non-empty field, and the key of no tuple whose first field is
    ["abcdefghij"]: of the records of [("ab", "x")] and
    [("abcdefghij", "x")] the first alone is in the range scanned. *)
Theorem compoundKey_order_same_lengths
    (stub : Stub) (objectType next : string) (a b rest rest' : list string) :
  sameLengths a b ->
  0 < String.length next ->
  ((createCompoundKey objectType a).1 ?= (createCompoundKey objectType b).1)%string
  = tupleCompare a b
  /\ (exists iter,
        trace (partialCompoundKeyQuery stub objectType ["ab"]).2 =
        trace stub
        ++ EvRangeQueryState (queryRange objectType ["ab"]).1
             (queryRange objectType ["ab"]).2 iter
        :: match iter with Some keysIter => [EvClose keysIter] | None => [] end)
  /\ inRange (queryRange objectType ["ab"])
       (createCompoundKey objectType ("ab" :: next :: rest)).1 = true
  /\ inRange (queryRange objectType ["ab"])
       (createCompoundKey objectType ("abcdefghij" :: rest')).1 = false.
Proof.
  intros Hab Hnext. split; [|split; [|split]].
  - rewrite !Codec.createCompoundKey_segments. simpl.
    rewrite Str.compare_app_head. by apply Scan.compare_segments.
  - apply Query.partialCompoundKeyQuery_trace.
  - apply (queryRange_complete objectType ["ab"] rest next Hnext).
  - rewrite Codec.queryRange_segments, Codec.createCompoundKey_segments.
    apply not_true_iff_false. intros (c & r & E & _)%Range.inRange_iff.
    rewrite Str.app_assoc in E. apply Str.app_inv_head in E.
    vm_compute in E. discriminate E.
Qed.

Lemma compoundKey_order_same_lengths_witness :
  ((createCompoundKey "Marble" ["blue"; "iris"]).1
     ?= (createCompoundKey "Marble" ["blue"; "rose"]).1)%string
  = tupleCompare ["blue"; "iris"] ["blue"; "rose"]
  /\ (exists iter,
        trace (partialCompoundKeyQuery (mkStub ∅ [] [] []) "Marble" ["ab"]).2 =
        []
        ++ EvRangeQueryState (queryRange "Marble" ["ab"]).1
             (queryRange "Marble" ["ab"]).2 iter
        :: match iter with Some keysIter => [EvClose keysIter] | None => [] end)
  /\ inRange (queryRange "Marble" ["ab"])
       (createCompoundKey "Marble" ["ab"; "x"]).1 = true
  /\ inRange (queryRange "Marble" ["ab"])
       (createCompoundKey "Marble" ["abcdefghij"; "x"]).1 = false.
Proof.
  apply (compoundKey_order_same_lengths (mkStub ∅ [] [] []) "Marble" "x"
           ["blue"; "iris"] ["blue"; "rose"] [] ["x"]).
  - unfold sameLengths. repeat constructor.
  - simpl. lia.
Defined.

(** C6, refuted as stated: the tuple [["ab"]] is below the tuple
    [["abcdefghij"]] and its key is above the key of that tuple, the
    length ["10"] being written before the field; both keys are in the
    range of the scan of all the records of the object type, which in
    ascending key order has them against the order of the tuples. And
    the range of the scan for the prefix [["ab"]] does not contain the key
    of the tuple [["ab"]]. *)
Lemma compoundKey_order_not_tuple_order :
  tupleCompare ["ab"] ["abcdefghij"] = Lt
  /\ (createCompoundKey "Marble" ["ab"]).1 = "Marble2ab"
  /\ (createCompoundKey "Marble" ["abcdefghij"]).1 = "Marble10abcdefghij"
  /\ ("Marble2ab" ?= "Marble10abcdefghij")%string = Gt
  /\ inRange (queryRange "Marble" []) "Marble2ab" = true
  /\ inRange (queryRange "Marble" []) "Marble10abcdefghij" = true
  /\ inRange (queryRange "Marble" ["ab"]) "Marble2ab" = false.
Proof. repeat split. Qed.

(** * Further properties of the chaincode *)

(** ** Keys and ranges *)

(** X1: a compound key is an object type for further fields: encoding
    the fields [b] under the key of the fields [a] gives the key of
    [a ++ b]; so the keys of the object type ["Marble"] for tuples that
    start with ["blue"] are also keys of the object type ["Marble4blue"]. *)
Theorem createCompoundKey_app
    (objectType : string) (a b : list string) :
  createCompoundKey (createCompoundKey objectType a).1 b =
  createCompoundKey objectType (a ++ b).
Proof.
  rewrite !Codec.createCompoundKey_segments. simpl.
  by rewrite Codec.segments_app, Str.app_assoc.
Qed.

(** X3: the range of a partial-key query holds exactly the strings made
    of the encoded partial keys, one character from ['1'] to ['9'] and
    anything after it. *)
Theorem queryRange_keys
    (objectType : string) (keys : list string) (key : string) :
  inRange (queryRange objectType keys) key = true <->
  exists c rest,
    key = (createCompoundKey objectType keys).1 +:+ String c rest
    /\ isDigit19 c = true.
Proof.
  rewrite Codec.queryRange_segments, Codec.createCompoundKey_segments.
  apply Range.inRange_iff.
Qed.

(** X6: one more partial key narrows the query, when the key added is
    not empty: every key in the range for [partial ++ [next]] is in the
    range for [partial]. *)
Theorem queryRange_narrows
    (objectType : string) (partial : list string) (next key : string) :
  0 < String.length next ->
  inRange (queryRange objectType (partial ++ [next])) key = true ->
  inRange (queryRange objectType partial) key = true.
Proof.
  intros Hnext.
  rewrite !Codec.queryRange_segments, Codec.segments_app.
  intros (c & r & -> & _)%Range.inRange_iff. apply Range.inRange_iff.
  destruct (ItoaFacts.Itoa_head (String.length next))
    as (d & r' & E & Hd & Hpos).
  exists (strconv.digit d), (r' +:+ next +:+ String c r).
  split; [|by apply isDigit19_digit; auto].
  cbn [segments]. rewrite E, !Str.app_assoc. reflexivity.
Qed.

Lemma queryRange_narrows_witness :
  inRange (queryRange "Marble" ["blue"]) "Marble4blue4rose1x" = true.
Proof.
  apply (queryRange_narrows "Marble" ["blue"] "rose" "Marble4blue4rose1x").
  - simpl. lia.
  - reflexivity.
Defined.

(** ** Calls that read *)

Module Effects.

Lemma RangeQueryState_state (stub : Stub) (startKey endKey : string) :
  state (RangeQueryState stub startKey endKey).2 = state stub.
Proof.
  unfold RangeQueryState, nextFailure, record.
  by destruct (failures stub) as [|[] fs].
Qed.

Lemma Close_state (stub : Stub) (iter : nat) :
  state (Close stub iter).2 = state stub.
Proof.
  unfold Close, nextFailure, record.
  by destruct (failures stub) as [|[] fs].
Qed.

Lemma HasNext_state (stub : Stub) (iter : nat) :
  state (HasNext stub iter).2 = state stub.
Proof. done. Qed.

Lemma Next_state (stub : Stub) (iter : nat) :
  state (Next stub iter).2 = state stub.
Proof.
  unfold Next. destruct (iterators stub !! iter) as [[[|[k v] rest] c]|]; done.
Qed.

Lemma collectMarbles_state `{GoLib} (fuel : nat) (stub : Stub)
    (keysIter : nat) (marbles : list Marble) :
  state (collectMarbles fuel stub keysIter marbles).2 = state stub.
Proof.
  revert stub marbles. induction fuel as [|fuel IH]; intros stub marbles;
    [done|].
  cbn [collectMarbles].
  pose proof (HasNext_state stub keysIter) as Hhas.
  destruct (HasNext stub keysIter) as [[] stub1]; [|done].
  pose proof (Next_state stub1 keysIter) as Hnext.
  destruct (Next stub1 keysIter) as [[[k v] e] stub2].
  rewrite IH. simpl in *. congruence.
Qed.

Lemma drain_state (fuel : nat) (stub : Stub) (keysIter : nat)
    (records : list (string * option string)) :
  state (drain fuel stub keysIter records).2 = state stub.
Proof.
  revert stub records. induction fuel as [|fuel IH]; intros stub records;
    [done|].
  cbn [drain].
  pose proof (HasNext_state stub keysIter) as Hhas.
  destruct (HasNext stub keysIter) as [[] stub1]; [|done].
  pose proof (Next_state stub1 keysIter) as Hnext.
  destruct (Next stub1 keysIter) as [[[k v] e] stub2].
  rewrite IH. simpl in *. congruence.
Qed.

Lemma partialCompoundKeyQuery_state (stub : Stub) (objectType : string)
    (keys : list string) :
  state (partialCompoundKeyQuery stub objectType keys).2 = state stub.
Proof.
  unfold partialCompoundKeyQuery.
  destruct (createCompoundKey objectType keys) as [keyString e].
  pose proof (RangeQueryState_state stub (keyString +:+ "1") (keyString +:+ ":"))
    as Hrq.
  destruct (RangeQueryState _ _ _) as [[keysIter|err] stub1]; [|done].
  pose proof (Close_state stub1 keysIter) as Hclose.
  destruct (Close stub1 keysIter) as [e' stub2]. simpl in *. congruence.
Qed.



Lemma PutState_fail (stub : Stub) (key value : string) (fs : list bool) :
  failures stub = true :: fs ->
  PutState stub key value =
  (Some peerError,
   mkStub (state stub) (iterators stub) fs
     (trace stub ++ [EvPutState key value])).
Proof. intros Hf. unfold PutState, nextFailure, record. by rewrite Hf. Qed.

Lemma GetState_fail (stub : Stub) (key : string) (fs : list bool) :
  failures stub = true :: fs ->
  GetState stub key =
  ((None, Some peerError),
   mkStub (state stub) (iterators stub) fs
     (trace stub ++ [EvGetState key None])).
Proof. intros Hf. unfold GetState, nextFailure, record. by rewrite Hf. Qed.

Lemma PutState_state_fail (stub stub' : Stub) (key value : string)
    (err : error) :
  PutState stub key value = (Some err, stub') -> state stub' = state stub.
Proof.
  unfold PutState, nextFailure, record.
  destruct (failures stub) as [|[] fs]; simpl; intros [= <- <-]; done.
Qed.

End Effects.

(** X7: the handlers and helpers that query never change the state,
    whatever their arguments and whether the peer fails or not:
    [partialCompoundKeyQuery], [get_blue_marbles_json],
    [get_marble_json], [read] and [Query]. *)
Theorem queries_keep_state `{GoLib}
    (stub : Stub) (objectType function : string) (keys args : list string) :
  state (partialCompoundKeyQuery stub objectType keys).2 = state stub
  /\ state (get_blue_marbles_json stub args).2 = state stub
  /\ state (get_marble_json stub args).2 = state stub
  /\ state (read stub args).2 = state stub
  /\ state (Query stub function args).2 = state stub.
Proof.
  assert (state (read stub args).2 = state stub) as Hread.
  { unfold read. destruct args as [|name [|? ?]]; try done.
    pose proof (StubFacts.GetState_state stub name) as Hget.
    by destruct (GetState stub name) as [[v [e|]] stub1]. }
  split; [apply Effects.partialCompoundKeyQuery_state|].
  split; [|split; [|split; [done|]]].
  - unfold get_blue_marbles_json.
    pose proof (Effects.partialCompoundKeyQuery_state stub "Marble" ["blue"])
      as Hq.
    destruct (partialCompoundKeyQuery stub "Marble" ["blue"])
      as [[keysIter|err] stub1]; [|done].
    pose proof (Effects.collectMarbles_state
                  (S (pendingCount stub1 keysIter)) stub1 keysIter []) as Hloop.
    destruct (collectMarbles _ _ _ _) as [marbles stub2].
    pose proof (Effects.Close_state stub2 keysIter) as Hclose.
    destruct (Close stub2 keysIter) as [e stub3]. simpl in *. congruence.
  - unfold get_marble_json. destruct args as [|name [|color args]]; try done.
    rewrite Codec.createCompoundKey_segments.
    pose proof (StubFacts.GetState_state stub
                  ("Marble" +:+ segments [color; name])) as Hget.
    by destruct (GetState _ _) as [[v e] stub1].
  - unfold Query. by destruct (function =? "read")%string.
Qed.

(** X8: when the range query fails, [partialCompoundKeyQuery] returns
    the error of the peer behind the words ["Error fetching rows: "] and
    no iterator; none has been opened and [Close] has not been called. *)
Theorem partialCompoundKeyQuery_fails
    (stub : Stub) (objectType : string) (keys : list string)
    (fs : list bool) :
  failures stub = true :: fs ->
  exists stub',
    partialCompoundKeyQuery stub objectType keys =
    (inr ("Error fetching rows: " +:+ peerError), stub')
    /\ iterators stub' = iterators stub
    /\ state stub' = state stub
    /\ trace stub' =
       trace stub
       ++ [EvRangeQueryState (queryRange objectType keys).1
             (queryRange objectType keys).2 None].
Proof.
  intros Hf. unfold partialCompoundKeyQuery, queryRange.
  destruct (createCompoundKey objectType keys) as [keyString e].
  unfold RangeQueryState, nextFailure, record. rewrite Hf. by eexists.
Qed.

Lemma partialCompoundKeyQuery_fails_witness :
  exists stub',
    partialCompoundKeyQuery (mkStub ∅ [] [true] []) "Marble" ["blue"] =
    (inr ("Error fetching rows: " +:+ peerError), stub')
    /\ iterators stub' = []
    /\ state stub' = ∅
    /\ trace stub' =
       [] ++ [EvRangeQueryState (queryRange "Marble" ["blue"]).1
                (queryRange "Marble" ["blue"]).2 None].
Proof.
  apply (partialCompoundKeyQuery_fails (mkStub ∅ [] [true] []) "Marble"
           ["blue"] []).
  reflexivity.
Defined.


(** ** Scans *)

(** The first call of [get_blue_marbles_json] on the stub is the range
    query for the partial key ["blue"] of the object type ["Marble"]. *)
Lemma get_blue_marbles_json_query `{GoLib} (stub : Stub) (args : list string) :
  exists iter rest,
    trace (get_blue_marbles_json stub args).2 =
    trace stub
    ++ EvRangeQueryState (queryRange "Marble" ["blue"]).1
         (queryRange "Marble" ["blue"]).2 iter :: rest.
Proof.
  unfold get_blue_marbles_json.
  destruct (Query.partialCompoundKeyQuery_trace stub "Marble" ["blue"])
    as [iter Hq].
  destruct (partialCompoundKeyQuery stub "Marble" ["blue"])
    as [[keysIter|err] stub1]; cbn [snd] in Hq.
  - destruct (Loop.collectMarbles_trace (S (pendingCount stub1 keysIter))
                stub1 keysIter []) as (uses & Hloop & _).
    destruct (collectMarbles _ _ _ _) as [marbles stub2]. cbn [snd] in Hloop.
    exists iter. eexists.
    unfold Close, nextFailure, record.
    destruct (failures stub2) as [|f fs]; cbn [snd trace];
      rewrite Hloop, Hq, <- !app_assoc; reflexivity.
  - exists iter. eexists. cbn [snd]. exact Hq.
Qed.

(** X10: a marble that [init_marble_json] stores with a non-empty name
    and a color that lower-cases to ["blue"] is in the state under a key
    that lies between the bounds of the range query that
    [get_blue_marbles_json] makes, whatever the length of the name. *)
Theorem init_marble_json_in_blue_range `{GoLib}
    (stub : Stub) (name color size owner : string) (args : list string) :
  failures stub !! 0 <> Some true ->
  0 < String.length name ->
  strings_ToLower color = "blue" ->
  let marble :=
    mkMarble "Marble" name "blue" (strconv_Atoi size)
      (strings_ToLower owner) in
  let compoundKey := (createCompoundKey "Marble" ["blue"; name]).1 in
  let stub1 := (init_marble_json stub [name; color; size; owner]).2 in
  state stub1 !! compoundKey = Some (json_Marshal marble)
  /\ exists startKey endKey iter rest,
       trace (get_blue_marbles_json stub1 args).2 =
       trace stub1 ++ EvRangeQueryState startKey endKey iter :: rest
       /\ inRange (startKey, endKey) compoundKey = true.
Proof.
  intros Hput Hname Hcolor marble compoundKey stub1. split.
  - subst stub1 compoundKey. rewrite init_marble_json_put, Hcolor.
    unfold put. rewrite Codec.createCompoundKey_segments.
    rewrite PutState_succeeds by done. cbn [fst snd state].
    apply lookup_insert_eq.
  - destruct (get_blue_marbles_json_query stub1 args) as (iter & rest & Htr).
    eexists _, _, iter, rest. split; [exact Htr|].
    rewrite <- surjective_pairing.
    apply (queryRange_complete "Marble" ["blue"] [] name Hname).
Qed.

Lemma init_marble_json_in_blue_range_witness :
  let stub1 :=
    (@init_marble_json asciiLib (mkStub ∅ [] [] [])
       ["abcdefghijkl"; "Blue"; "35"; "Bob"]).2 in
  state stub1 !! (createCompoundKey "Marble" ["blue"; "abcdefghijkl"]).1
  = Some "abcdefghijkl:bob"
  /\ exists startKey endKey iter rest,
       trace (@get_blue_marbles_json asciiLib stub1 []).2 =
       trace stub1 ++ EvRangeQueryState startKey endKey iter :: rest
       /\ inRange (startKey, endKey)
            (createCompoundKey "Marble" ["blue"; "abcdefghijkl"]).1 = true.
Proof.
  apply (@init_marble_json_in_blue_range asciiLib (mkStub ∅ [] [] [])
           "abcdefghijkl" "Blue" "35" "Bob" []).
  - simpl. discriminate.
  - simpl. lia.
  - reflexivity.
Defined.



(** ** The marble handlers *)

(** X12: the outcome of [init_marble_json] depends on the number of its
    arguments only: with four it returns [(nil, nil)], whatever the peer
    does with the [PutState], and with another number its error. *)
Theorem init_marble_json_outcome `{GoLib} (stub : Stub) (args : list string) :
  (init_marble_json stub args).1 =
  if bool_decide (length args = 4) then Return None None
  else Return None (Some "Incorrect number of arguments. Expecting 4").
Proof.
  destruct args as [|a0 [|a1 [|a2 [|a3 [|a4 args]]]]]; try done.
  unfold init_marble_json. cbn [Color Name].
  rewrite Codec.createCompoundKey_segments.
  by destruct (PutState _ _ _).
Qed.

(** X13: [init_marble_json] drops the error of [PutState]: when the put
    fails it still returns [(nil, nil)], and the state is what it was. *)
Theorem init_marble_json_drops_failure `{GoLib}
    (stub : Stub) (name color size owner : string) (fs : list bool) :
  failures stub = true :: fs ->
  (init_marble_json stub [name; color; size; owner]).1 = Return None None
  /\ state (init_marble_json stub [name; color; size; owner]).2 = state stub.
Proof.
  intros Hf. unfold init_marble_json. cbn [Color Name].
  rewrite Codec.createCompoundKey_segments.
  by rewrite (Effects.PutState_fail _ _ _ fs).
Qed.

Lemma init_marble_json_drops_failure_witness :
  let stub := mkStub ∅ [] [true] [] in
  (@init_marble_json exampleLib stub ["rose"; "blue"; "35"; "bob"]).1
  = Return None None
  /\ state (@init_marble_json exampleLib stub ["rose"; "blue"; "35"; "bob"]).2
     = state stub.
Proof.
  apply (@init_marble_json_drops_failure exampleLib (mkStub ∅ [] [true] [])
           "rose" "blue" "35" "bob" []).
  reflexivity.
Defined.

Lemma marble_json_roundtrip_witness :
  exists compoundKey,
    createCompoundKey "Marble" ["blue"; "rose"] = (compoundKey, None)
    /\ trace
         (@get_marble_json asciiLib
            (@init_marble_json asciiLib (mkStub ∅ [] [] [])
               ["rose"; "Blue"; "35"; "Bob"]).2
            ["rose"; "blue"]).2 =
       [] ++ [EvPutState compoundKey "rose:bob";
              EvGetState compoundKey (Some "rose:bob")].
Proof.
  apply (@marble_json_roundtrip asciiLib (mkStub ∅ [] [] [])
           "rose" "Blue" "35" "Bob" []).
  reflexivity.
Defined.

(** X15: [get_marble_json] never returns the marble: it panics on the
    index of a missing argument when it has fewer than two, and returns
    [(nil, nil)] otherwise, whether the marble exists or not and whether
    the peer fails or not. *)
Theorem get_marble_json_outcome `{GoLib} (stub : Stub) (args : list string) :
  (get_marble_json stub args).1 =
  if bool_decide (2 <= length args) then Return None None else Panic.
Proof.
  unfold get_marble_json. destruct args as [|name [|color args]]; try done.
  rewrite Codec.createCompoundKey_segments.
  destruct (GetState _ _) as [[v e] stub1].
  rewrite bool_decide_eq_true_2 by (simpl; lia). done.
Qed.

Module Keys.

#[local] Arguments String.append : simpl nomatch.

(** Two tuples (color, name) with colors of the same length and the same
    name have the same key only if the colors are the same. *)
Lemma marble_key_inj (objectType color color' name : string) :
  String.length color' = String.length color ->
  createCompoundKey objectType [color'; name]
  = createCompoundKey objectType [color; name] ->
  color' = color.
Proof.
  intros Hlen. rewrite !Codec.createCompoundKey_segments. intros [= E].
  apply Str.app_inv_head in E. cbn [segments] in E. rewrite Hlen in E.
  apply Str.app_inv_head in E.
  by apply Str.app_inj_length in E as [-> _].
Qed.

(** The compound key of a marble is longer than its name. *)
Lemma marble_key_longer (objectType color name : string) :
  String.length name
  < String.length (createCompoundKey objectType [color; name]).1.
Proof.
  rewrite Codec.createCompoundKey_segments. cbn [fst segments].
  rewrite !Str.length_app.
  pose proof (ItoaFacts.Itoa_length_pos (String.length name)). lia.
Qed.

End Keys.

(** X16: [init_marble_json] stores the marble under the lower-cased
    color and [get_marble_json] looks it up under the color as given: for
    a color that [strings.ToLower] changes (without changing its length),
    the lookup reads another key, and gets what the state held under that
    key before the marble was stored. *)
Theorem get_marble_json_case_sensitive `{GoLib}
    (stub : Stub) (name color size owner : string) (args : list string) :
  failures stub = [] ->
  strings_ToLower color <> color ->
  String.length (strings_ToLower color) = String.length color ->
  let stub1 := (init_marble_json stub [name; color; size; owner]).2 in
  exists keyWritten keyRead,
    createCompoundKey "Marble" [strings_ToLower color; name]
    = (keyWritten, None)
    /\ createCompoundKey "Marble" [color; name] = (keyRead, None)
    /\ keyRead <> keyWritten
    /\ state stub1 !! keyWritten <> None
    /\ trace (get_marble_json stub1 (name :: color :: args)).2 =
       trace stub1 ++ [EvGetState keyRead (state stub !! keyRead)].
Proof.
  intros Hf Hne Hlen stub1. subst stub1.
  assert (createCompoundKey "Marble" [color; name]
          <> createCompoundKey "Marble" [strings_ToLower color; name])
    as Hkeys.
  { intros E. apply Hne.
    by apply (Keys.marble_key_inj "Marble" color _ name Hlen). }
  rewrite get_marble_json_getExact, init_marble_json_put.
  unfold put, getExact.
  rewrite !Codec.createCompoundKey_segments in *.
  assert ("Marble" +:+ segments [color; name]
          <> "Marble" +:+ segments [strings_ToLower color; name]) as Hne'
    by (intros E; apply Hkeys; by rewrite E).
  eexists _, _. split; [done|]. split; [done|]. split; [done|].
  rewrite StubFacts.PutState_ok by done.
  rewrite StubFacts.GetState_ok by done. cbn [fst snd state trace].
  rewrite lookup_insert_eq, lookup_insert_ne by done. done.
Qed.

Lemma get_marble_json_case_sensitive_witness :
  let stub1 :=
    (@init_marble_json asciiLib (mkStub ∅ [] [] [])
       ["rose"; "Blue"; "35"; "bob"]).2 in
  exists keyWritten keyRead,
    createCompoundKey "Marble" ["blue"; "rose"] = (keyWritten, None)
    /\ createCompoundKey "Marble" ["Blue"; "rose"] = (keyRead, None)
    /\ keyRead <> keyWritten
    /\ state stub1 !! keyWritten <> None
    /\ trace (@get_marble_json asciiLib stub1 ["rose"; "Blue"]).2 =
       trace stub1
       ++ [EvGetState keyRead ((∅ : gmap string string) !! keyRead)].
Proof.
  apply (@get_marble_json_case_sensitive asciiLib (mkStub ∅ [] [] [])
           "rose" "Blue" "35" "bob" []).
  - reflexivity.
  - simpl. discriminate.
  - reflexivity.
Defined.

(** ** [set_owner] *)

(** X17: [set_owner] never reaches a marble stored by
    [init_marble_json]: the compound key of the marble is longer than its
    name, under which [set_owner] reads and writes, so the record of the
    marble is after [set_owner] what it was before, for every marble and
    every new owner. *)
Theorem set_owner_misses_marble `{GoLib}
    (stub : Stub) (name color size owner newOwner : string)
    (rest : list string) :
  let compoundKey :=
    (createCompoundKey "Marble" [strings_ToLower color; name]).1 in
  let stub1 := (init_marble_json stub [name; color; size; owner]).2 in
  compoundKey <> name
  /\ state (set_owner stub1 (name :: newOwner :: rest)).2 !! compoundKey
     = state stub1 !! compoundKey.
Proof.
  intros compoundKey stub1.
  assert (compoundKey <> name) as Hne.
  { intros E.
    pose proof (Keys.marble_key_longer "Marble" (strings_ToLower color) name)
      as Hlen.
    fold compoundKey in Hlen. rewrite E in Hlen. lia. }
  split; [done|].
  destruct (SetOwner.set_owner_effect stub1 name newOwner rest) as [Hframe _].
  by apply Hframe.
Qed.

(** X18: when [set_owner] returns an error (too few arguments, a failed
    [GetState] or a failed [PutState]) the state is what it was. *)
Theorem set_owner_error_keeps_state `{GoLib}
    (stub : Stub) (args : list string) (payload : option string)
    (err : error) :
  (set_owner stub args).1 = Return payload (Some err) ->
  state (set_owner stub args).2 = state stub.
Proof.
  unfold set_owner. destruct args as [|arg0 [|arg1 args]]; try done.
  pose proof (StubFacts.GetState_state stub arg0) as Hget.
  destruct (GetState stub arg0) as [[marbleAsBytes [e|]] stub1];
    simpl in *; [done|].
  set (jsonAsBytes := json_Marshal _).
  destruct (PutState stub1 arg0 jsonAsBytes) as [[e|] stub2] eqn:Hput;
    simpl; [|done].
  intros _. apply Effects.PutState_state_fail in Hput. congruence.
Qed.

Lemma set_owner_error_keeps_state_witness :
  state (@set_owner exampleLib (mkStub ∅ [] [false; true] [])
           ["rose"; "alice"]).2 = ∅.
Proof.
  apply (@set_owner_error_keeps_state exampleLib
           (mkStub ∅ [] [false; true] []) ["rose"; "alice"] None peerError).
  reflexivity.
Defined.

(** X19: while the peer answers, [set_owner] with two arguments or more
    succeeds whether there is an entry under its first argument or not:
    it writes under that key the JSON of what it has decoded from the
    entry (from [nil] when there is none) with the owner replaced. *)
Theorem set_owner_writes `{GoLib}
    (stub : Stub) (arg0 arg1 : string) (args : list string) :
  failures stub = [] ->
  let res := json_Unmarshal (state stub !! arg0) zeroMarble in
  (set_owner stub (arg0 :: arg1 :: args)).1 = Return None None
  /\ state (set_owner stub (arg0 :: arg1 :: args)).2 =
     <[arg0 := json_Marshal
                 (mkMarble (ObjectType res) (Name res) (Color res) (Size res)
                    arg1)]> (state stub).
Proof.
  intros Hf res. unfold set_owner.
  rewrite StubFacts.GetState_ok by done.
  rewrite StubFacts.PutState_ok by done. done.
Qed.

Lemma set_owner_writes_witness :
  (@set_owner exampleLib (mkStub ∅ [] [] []) ["rose"; "alice"]).1
  = Return None None
  /\ state (@set_owner exampleLib (mkStub ∅ [] [] []) ["rose"; "alice"]).2
     = <["rose" := ":alice"]> ∅.
Proof.
  apply (@set_owner_writes exampleLib (mkStub ∅ [] [] []) "rose" "alice" []).
  reflexivity.
Defined.

(** ** [read] and the entry points *)

(** X20: while the peer answers, [read] with one argument returns the
    value of the state under that key and no error; for a key that is
    not in the state the value is [nil], and that is not an error. *)
Theorem read_value (stub : Stub) (name : string) :
  failures stub = [] ->
  (read stub [name]).1 = Return (state stub !! name) None.
Proof. intros Hf. unfold read. by rewrite StubFacts.GetState_ok. Qed.

Lemma read_value_witness :
  (read (mkStub ∅ [] [] []) ["rose"]).1
  = Return ((∅ : gmap string string) !! "rose") None.
Proof. apply (read_value (mkStub ∅ [] [] []) "rose"). reflexivity. Defined.

(** X21: what [Invoke] stores with ["init_marble_json"], [Query] reads
    back with ["read"] under the compound key of the lower-cased color
    and the name: the JSON of the marble, while the peer answers. *)
Theorem Invoke_init_Query_read `{GoLib} `{TableHandlers}
    (stub : Stub) (name color size owner : string) :
  failures stub = [] ->
  let marble :=
    mkMarble "Marble" name (strings_ToLower color) (strconv_Atoi size)
      (strings_ToLower owner) in
  let compoundKey :=
    (createCompoundKey "Marble" [strings_ToLower color; name]).1 in
  let stub1 :=
    (Invoke stub "init_marble_json" [name; color; size; owner]).2 in
  (Query stub1 "read" [compoundKey]).1
  = Return (Some (json_Marshal marble)) None.
Proof.
  intros Hf marble compoundKey stub1. subst stub1 compoundKey.
  unfold Invoke, Query. cbn [String.eqb Ascii.eqb Bool.eqb].
  rewrite init_marble_json_put. unfold put, read.
  rewrite Codec.createCompoundKey_segments. cbn [fst].
  rewrite StubFacts.PutState_ok by done.
  rewrite StubFacts.GetState_ok by done. simpl.
  by rewrite lookup_insert_eq.
Qed.

Lemma Invoke_init_Query_read_witness :
  (Query
     (@Invoke asciiLib exampleTables (mkStub ∅ [] [] []) "init_marble_json"
        ["rose"; "Blue"; "35"; "Bob"]).2
     "read" ["Marble4blue4rose"]).1
  = Return (Some "rose:bob") None.
Proof.
  apply (@Invoke_init_Query_read asciiLib exampleTables (mkStub ∅ [] [] [])
           "rose" "Blue" "35" "Bob").
  reflexivity.
Defined.

(** X22: through the entry points, ["set_owner"] on the name of a marble
    stored with ["init_marble_json"] does not change its owner: after it
    ["read"] still returns the JSON of the marble as it was stored, while
    the peer answers. *)
Theorem Invoke_set_owner_keeps_marble `{GoLib} `{TableHandlers}
    (stub : Stub) (name color size owner newOwner : string) :
  failures stub = [] ->
  let marble :=
    mkMarble "Marble" name (strings_ToLower color) (strconv_Atoi size)
      (strings_ToLower owner) in
  let compoundKey :=
    (createCompoundKey "Marble" [strings_ToLower color; name]).1 in
  let stub1 :=
    (Invoke stub "init_marble_json" [name; color; size; owner]).2 in
  let stub2 := (Invoke stub1 "set_owner" [name; newOwner]).2 in
  (Invoke stub1 "set_owner" [name; newOwner]).1 = Return None None
  /\ (Query stub2 "read" [compoundKey]).1
     = Return (Some (json_Marshal marble)) None.
Proof.
  intros Hf marble compoundKey stub1 stub2. subst stub2 stub1.
  assert (compoundKey <> name) as Hne.
  { intros E.
    pose proof (Keys.marble_key_longer "Marble" (strings_ToLower color) name)
      as Hlen.
    fold compoundKey in Hlen. rewrite E in Hlen. lia. }
  unfold Invoke, Query. cbn [String.eqb Ascii.eqb Bool.eqb].
  rewrite init_marble_json_put. unfold put.
  fold compoundKey.
  rewrite (surjective_pairing (createCompoundKey _ _)). fold compoundKey.
  rewrite StubFacts.PutState_ok by done.
  unfold set_owner, read.
  rewrite StubFacts.GetState_ok by done.
  rewrite StubFacts.PutState_ok by done. cbn [fst snd].
  rewrite StubFacts.GetState_ok by done. cbn [fst state].
  split; [done|].
  by rewrite lookup_insert_ne, lookup_insert_eq.
Qed.

Lemma Invoke_set_owner_keeps_marble_witness :
  let stub1 :=
    (@Invoke asciiLib exampleTables (mkStub ∅ [] [] []) "init_marble_json"
       ["rose"; "Blue"; "35"; "Bob"]).2 in
  (@Invoke asciiLib exampleTables stub1 "set_owner" ["rose"; "alice"]).1
  = Return None None
  /\ (Query (@Invoke asciiLib exampleTables stub1 "set_owner"
               ["rose"; "alice"]).2
        "read" ["Marble4blue4rose"]).1
     = Return (Some "rose:bob") None.
Proof.
  apply (@Invoke_set_owner_keeps_marble asciiLib exampleTables
           (mkStub ∅ [] [] []) "rose" "Blue" "35" "Bob" "alice").
  reflexivity.
Defined.

(** X23: [Invoke] with a function name that is none of the eight that it
    knows returns its error and makes no call on the stub. *)
Theorem Invoke_unknown_function `{GoLib} `{TableHandlers}
    (stub : Stub) (function : string) (args : list string) :
  function ∉ invokeFunctions ->
  Invoke stub function args =
  (Return None (Some "Received unknown function invocation"), stub).
Proof.
  intros Hnot. unfold Invoke.
  repeat match goal with
    | |- context [(function =? ?name)%string] =>
        destruct (String.eqb_spec function name) as [->|_];
        [exfalso; apply Hnot; unfold invokeFunctions;
         repeat (first [apply list_elem_of_here | apply list_elem_of_further])
        |]
    end.
  done.
Qed.

Lemma Invoke_unknown_function_witness :
  @Invoke exampleLib exampleTables (mkStub ∅ [] [] []) "read" ["rose"] =
  (Return None (Some "Received unknown function invocation"),
   mkStub ∅ [] [] []).
Proof.
  apply (@Invoke_unknown_function exampleLib exampleTables
           (mkStub ∅ [] [] []) "read" ["rose"]).
  unfold invokeFunctions. intros Hin.
  repeat (apply elem_of_cons in Hin as [Hin|Hin]; [discriminate Hin|]).
  by apply elem_of_nil in Hin.
Defined.

(** X24: [init_marble_json] does not look at what the state holds: a
    second marble with the name and the lower-cased color of a first one
    replaces it, and the state is as if the first had never been stored,
    while the peer answers. *)
Theorem init_marble_json_overwrites `{GoLib}
    (stub : Stub) (name color color' size size' owner owner' : string) :
  failures stub = [] ->
  strings_ToLower color' = strings_ToLower color ->
  state
    (init_marble_json
       (init_marble_json stub [name; color; size; owner]).2
       [name; color'; size'; owner']).2
  = state (init_marble_json stub [name; color'; size'; owner']).2.
Proof.
  intros Hf Hcolor. rewrite !init_marble_json_put. unfold put.
  rewrite Hcolor, !Codec.createCompoundKey_segments.
  rewrite !(StubFacts.PutState_ok stub) by done. cbn [snd].
  rewrite StubFacts.PutState_ok by done. cbn [snd state].
  by rewrite insert_insert_eq.
Qed.

Lemma init_marble_json_overwrites_witness :
  state
    (@init_marble_json asciiLib
       (@init_marble_json asciiLib (mkStub ∅ [] [] [])
          ["rose"; "Blue"; "35"; "bob"]).2
       ["rose"; "BLUE"; "7"; "eve"]).2
  = state (@init_marble_json asciiLib (mkStub ∅ [] [] [])
             ["rose"; "BLUE"; "7"; "eve"]).2.
Proof.
  apply (@init_marble_json_overwrites asciiLib (mkStub ∅ [] [] [])
           "rose" "Blue" "BLUE" "35" "7" "bob" "eve").
  - reflexivity.
  - reflexivity.
Defined.
